(** * Admin router: inbound reconciliation ([sync_admin]) and bulk status
      operations ([disable_all_active_users], [activate_all_disabled_users])

    Shallow embedding of [src/app/routers/admin.py].

    Python dictionaries are finite maps ([gmap]): dictionary equality compares
    key sets and values and ignores insertion order, and none of the loops
    below depends on the order in which a dictionary is visited.  The node
    registry is the exception (nodes are restarted in registry order), so it
    is an association list.  Calls into the store, the core and the nodes are
    recorded in a trace and their outcomes are given by an environment. *)

From Stdlib Require Import ZArith.
From stdpp Require Import gmap strings list fin_maps.

Local Open Scope Z_scope.

(** ** Data model *)

(** Modelled from the spec: [app.models.proxy.ProxyTypes] is imported, not
    defined, by the router.  Section 3 fixes the enumeration to Shadowsocks,
    VMess, VLESS and Trojan, the four members the router names.  It is a
    string-valued enumeration: a member and its [.value] hash and compare
    alike, so both address the same dictionary key. *)
Inductive ProxyTypes := VMess | VLESS | Trojan | Shadowsocks.

Global Instance ProxyTypes_eq_dec : EqDecision ProxyTypes.
Proof. solve_decision. Defined.

Definition ProxyTypes_to_nat (p : ProxyTypes) : nat :=
  match p with VMess => 0 | VLESS => 1 | Trojan => 2 | Shadowsocks => 3 end%nat.

Definition ProxyTypes_of_nat (n : nat) : option ProxyTypes :=
  match n with
  | 0 => Some VMess | 1 => Some VLESS | 2 => Some Trojan | 3 => Some Shadowsocks
  | _ => None
  end%nat.

Global Instance ProxyTypes_countable : Countable ProxyTypes.
Proof.
  apply (inj_countable ProxyTypes_to_nat ProxyTypes_of_nat).
  by intros [].
Defined.

(** Modelled from the spec: [app.models.user.UserStatus] is imported, not
    defined, by the router; section 3 lists its five members. *)
Inductive UserStatus := active | disabled | on_hold | expired | limited.

Global Instance UserStatus_eq_dec : EqDecision UserStatus.
Proof. solve_decision. Defined.

(** [ProxyInbound]: the router reads the [tag] attribute only. *)
Record ProxyInbound := { tag : string }.

(** The iteration order of a Python [set] of strings is fixed by the string
    hashes and by the insertion history; the program cannot choose it.
    [list_set_union xs ys] stands for [list(set(xs).union(ys))]: some
    duplicate-free listing of the elements of [xs] and [ys]. *)
Class SetOrder := {
  list_set_union : list string → list string → list string;
  list_set_union_NoDup : ∀ xs ys, NoDup (list_set_union xs ys);
  list_set_union_elem : ∀ xs ys t, t ∈ list_set_union xs ys ↔ t ∈ xs ∨ t ∈ ys
}.

(** One admissible order: the tags of [xs ++ ys], each at its last
    occurrence. *)
Definition last_seen_order : SetOrder :=
  {| list_set_union xs ys := remove_dups (xs ++ ys);
     list_set_union_NoDup xs ys := NoDup_remove_dups (xs ++ ys);
     list_set_union_elem xs ys t :=
       iff_trans (elem_of_remove_dups (xs ++ ys) t) (elem_of_app xs ys t) |}.

Lemma NoDup_reversed (l : list string) : NoDup l → NoDup (reverse l).
Proof. intros Hl. by rewrite reverse_Permutation. Qed.

(** Another admissible order: the same tags, listed the other way round. *)
Definition reversed_order : SetOrder :=
  {| list_set_union xs ys := reverse (remove_dups (ys ++ xs));
     list_set_union_NoDup xs ys :=
       NoDup_reversed (remove_dups (ys ++ xs)) (NoDup_remove_dups (ys ++ xs));
     list_set_union_elem xs ys t :=
       iff_trans (elem_of_reverse t (remove_dups (ys ++ xs)))
         (iff_trans (elem_of_remove_dups (ys ++ xs) t)
            (iff_trans (elem_of_app ys xs t) (or_comm _ _))) |}.

(** Default payloads of the settings constructors in [app.models.proxy]:
    [ShadowsocksSettings().dict()], [VMessSettings().dict()],
    [VLESSSettings().dict()] and [TrojanSettings().dict()]. *)
Class ProxyModels (Settings : Type) := {
  ShadowsocksSettings_dict : Settings;
  VMessSettings_dict : Settings;
  VLESSSettings_dict : Settings;
  TrojanSettings_dict : Settings
}.

(** A row of [user.proxies]. *)
Record Proxy (Settings : Type) := { type : ProxyTypes; settings : Settings }.
Arguments type {Settings} _.
Arguments settings {Settings} _.

(** The attributes of a store user that the router reads. *)
Record User (Settings : Type) := {
  inbounds : gmap ProxyTypes (list string);
  proxies : list (Proxy Settings);
  status : UserStatus
}.
Arguments inbounds {Settings} _.
Arguments proxies {Settings} _.
Arguments status {Settings} _.

(** [UserModify(inbounds=..., proxies=...)] *)
Record UserModify (Settings : Type) := {
  um_inbounds : gmap ProxyTypes (list string);
  um_proxies : gmap ProxyTypes Settings
}.
Arguments um_inbounds {Settings} _.
Arguments um_proxies {Settings} _.

(** A (protocol, tag) pair of the policy supplied to a sync call. *)
Definition in_policy (configs : gmap ProxyTypes (list ProxyInbound))
    (protocol : ProxyTypes) (t : string) : Prop :=
  ∃ policy_inbounds : list ProxyInbound,
    configs !! protocol = Some policy_inbounds ∧ t ∈ tag <$> policy_inbounds.

(** An inbounds mapping all of whose pairs are pairs of the policy. *)
Definition within_policy (configs : gmap ProxyTypes (list ProxyInbound))
    (user_inbounds : gmap ProxyTypes (list string)) : Prop :=
  ∀ protocol (tags : list string) (t : string),
    user_inbounds !! protocol = Some tags → t ∈ tags → in_policy configs protocol t.

(** ** Reconciliation of one user (lines 212-251) *)

(** Lines 212-215. *)
Definition allowed_inbounds_of (configs : gmap ProxyTypes (list ProxyInbound))
    : gmap ProxyTypes (list string) :=
  (λ inbounds : list ProxyInbound, tag <$> inbounds) <$> configs.

Section Reconciliation.

(** A settings payload is a JSON object of the store, compared with [==]. *)
Context {Settings : Type} `{!EqDecision Settings}.
Context `{!SetOrder} `{!ProxyModels Settings}.

(** Line 222: [[tag for tag in tags if tag in allowed_tags]] *)
Definition keep_allowed (allowed_tags tags : list string) : list string :=
  filter (λ t : string, t ∈ allowed_tags) tags.

(** Lines 220-224, one protocol of [user.inbounds]; an empty list is
    false. *)
Definition carry_step (allowed_inbounds : gmap ProxyTypes (list string))
    (protocol : ProxyTypes) (tags : list string)
    (new_inbounds : gmap ProxyTypes (list string))
    : gmap ProxyTypes (list string) :=
  match allowed_inbounds !! protocol with
  | Some allowed_tags =>
      match keep_allowed allowed_tags tags with
      | [] => new_inbounds
      | new_tags => <[protocol := new_tags]> new_inbounds
      end
  | None => new_inbounds
  end.

(** Lines 219-224. *)
Definition carried_inbounds
    (allowed_inbounds user_inbounds : gmap ProxyTypes (list string))
    : gmap ProxyTypes (list string) :=
  map_fold (carry_step allowed_inbounds) ∅ user_inbounds.

(** Lines 227-232, one protocol of [allowed_inbounds]. *)
Definition grant_step (protocol : ProxyTypes) (tags : list string)
    (new_inbounds : gmap ProxyTypes (list string))
    : gmap ProxyTypes (list string) :=
  match new_inbounds !! protocol with
  | Some existing_tags =>
      <[protocol := list_set_union existing_tags tags]> new_inbounds
  | None => <[protocol := tags]> new_inbounds
  end.

(** Lines 219-232. *)
Definition sync_new_inbounds (allowed_inbounds : gmap ProxyTypes (list string))
    (user : User Settings) : gmap ProxyTypes (list string) :=
  map_fold grant_step
    (carried_inbounds allowed_inbounds (inbounds user)) allowed_inbounds.

(** Line 251, right operand: [{p.type.value: p.settings for p in user.proxies}];
    a later row wins over an earlier row of the same type. *)
Definition settings_map (ps : list (Proxy Settings)) : gmap ProxyTypes Settings :=
  foldl (λ acc p, <[type p := settings p]> acc) ∅ ps.

(** Lines 234-238. *)
Definition kept_proxies (new_inbounds : gmap ProxyTypes (list string))
    (ps : list (Proxy Settings)) : gmap ProxyTypes Settings :=
  foldl (λ acc p,
           if bool_decide (is_Some (new_inbounds !! type p))
           then <[type p := settings p]> acc else acc) ∅ ps.

(** Lines 241-249, one protocol of [new_inbounds]; the chain has no final
    [else]. *)
Definition default_step (protocol : ProxyTypes) (_ : list string)
    (new_proxies : gmap ProxyTypes Settings) : gmap ProxyTypes Settings :=
  match new_proxies !! protocol with
  | Some _ => new_proxies
  | None =>
      if bool_decide (protocol = Shadowsocks) then
        <[protocol := ShadowsocksSettings_dict]> new_proxies
      else if bool_decide (protocol = VMess) then
        <[protocol := VMessSettings_dict]> new_proxies
      else if bool_decide (protocol = VLESS) then
        <[protocol := VLESSSettings_dict]> new_proxies
      else if bool_decide (protocol = Trojan) then
        <[protocol := TrojanSettings_dict]> new_proxies
      else new_proxies
  end.

(** Lines 234-249. *)
Definition sync_new_proxies (new_inbounds : gmap ProxyTypes (list string))
    (user : User Settings) : gmap ProxyTypes Settings :=
  map_fold default_step (kept_proxies new_inbounds (proxies user)) new_inbounds.

(** The payload the chain of lines 242-249 builds for a protocol. *)
Definition default_settings (protocol : ProxyTypes) : Settings :=
  match protocol with
  | Shadowsocks => ShadowsocksSettings_dict
  | VMess => VMessSettings_dict
  | VLESS => VLESSSettings_dict
  | Trojan => TrojanSettings_dict
  end.

(** Line 251. *)
Definition changed (allowed_inbounds : gmap ProxyTypes (list string))
    (user : User Settings) : bool :=
  let new_inbounds := sync_new_inbounds allowed_inbounds user in
  let new_proxies := sync_new_proxies new_inbounds user in
  bool_decide (new_inbounds ≠ inbounds user)
  || bool_decide (new_proxies ≠ settings_map (proxies user)).

(** The patch of line 255. *)
Definition modify_of (allowed_inbounds : gmap ProxyTypes (list string))
    (user : User Settings) : UserModify Settings :=
  let new_inbounds := sync_new_inbounds allowed_inbounds user in
  {| um_inbounds := new_inbounds;
     um_proxies := sync_new_proxies new_inbounds user |}.

End Reconciliation.

(** ** Calls that may raise *)

Inductive Result (A : Type) := Ok (a : A) | Raise.
Arguments Ok {A} _.
Arguments Raise {A}.

(** A computation over a state [S] that returns or raises. *)
Definition M (S A : Type) : Type := S → S * Result A.

Global Instance M_ret {S} : MRet (M S) := λ A a s, (s, Ok a).

Global Instance M_bind {S} : MBind (M S) := λ A B k c s,
  match c s with
  | (s', Ok a) => k a s'
  | (s', Raise) => (s', Raise)
  end.

(** [try: body except Exception: handler] *)
Definition try_except {S A} (body handler : M S A) : M S A := λ s,
  match body s with
  | (s', Ok a) => (s', Ok a)
  | (s', Raise) => handler s'
  end.

(** ** [sync_admin] (lines 202-268) *)

(** Calls that leave the router during a sync, in the order they are made. *)
Inductive Event (Settings : Type) :=
| CrudUpdateUser (user : User Settings) (modify : UserModify Settings)
| XrayUpdateUser (user : User Settings)
| DbRollback.
Arguments CrudUpdateUser {Settings} _ _.
Arguments XrayUpdateUser {Settings} _.
Arguments DbRollback {Settings}.

(** What the collaborators answer.  Each answer may depend on every call made
    so far.  [None] and [false] stand for a raised exception;
    [db_rollback_returns] tells whether [db.rollback()] returns. *)
Record SyncEnv (Settings : Type) := {
  UserModify_accepts :
    gmap ProxyTypes (list string) → gmap ProxyTypes Settings → bool;
  crud_update_user :
    list (Event Settings) → User Settings → UserModify Settings → option (User Settings);
  xray_operations_update_user : list (Event Settings) → User Settings → bool;
  db_rollback_returns : list (Event Settings) → bool
}.
Arguments UserModify_accepts {Settings} _ _ _.
Arguments crud_update_user {Settings} _ _ _ _.
Arguments xray_operations_update_user {Settings} _ _ _.
Arguments db_rollback_returns {Settings} _ _.

Record Report := { total : Z; success : Z; unsuccessful : Z }.

Section Sync.

Context {Settings : Type} `{!EqDecision Settings}.
Context `{!SetOrder} `{!ProxyModels Settings}.
Variable env : SyncEnv Settings.

Definition UserModify_new (new_inbounds : gmap ProxyTypes (list string))
    (new_proxies : gmap ProxyTypes Settings)
    : M (list (Event Settings)) (UserModify Settings) := λ h,
  if UserModify_accepts env new_inbounds new_proxies
  then (h, Ok {| um_inbounds := new_inbounds; um_proxies := new_proxies |})
  else (h, Raise).

Definition call_crud_update_user (user : User Settings) (modify : UserModify Settings)
    : M (list (Event Settings)) (User Settings) := λ h,
  match crud_update_user env h user modify with
  | Some user' => (h ++ [CrudUpdateUser user modify], Ok user')
  | None => (h ++ [CrudUpdateUser user modify], Raise)
  end.

Definition call_xray_update_user (user : User Settings)
    : M (list (Event Settings)) unit := λ h,
  if xray_operations_update_user env h user
  then (h ++ [XrayUpdateUser user], Ok tt)
  else (h ++ [XrayUpdateUser user], Raise).

(** Line 261: [db.rollback()], called in the handler and not guarded; what
    it raises leaves the loop. *)
Definition db_rollback : M (list (Event Settings)) unit := λ h,
  (h ++ [DbRollback], if db_rollback_returns env h then Ok tt else Raise).

(** Lines 219-258: the body of the [try]. *)
Definition sync_user (allowed_inbounds : gmap ProxyTypes (list string))
    (user : User Settings) : M (list (Event Settings)) unit :=
  let new_inbounds := sync_new_inbounds allowed_inbounds user in
  let new_proxies := sync_new_proxies new_inbounds user in
  if changed allowed_inbounds user then
    modify ← UserModify_new new_inbounds new_proxies;
    user ← call_crud_update_user user modify;
    if bool_decide (status user ∈ [active; on_hold])
    then call_xray_update_user user
    else mret tt
  else mret tt.

(** Lines 217-262. *)
Fixpoint sync_users (allowed_inbounds : gmap ProxyTypes (list string))
    (users : list (User Settings)) (unsuccessful : Z)
    : M (list (Event Settings)) Z :=
  match users with
  | [] => mret unsuccessful
  | user :: users =>
      unsuccessful ←
        try_except (sync_user allowed_inbounds user ;; mret unsuccessful)
                   (db_rollback ;; mret (unsuccessful + 1));
      sync_users allowed_inbounds users unsuccessful
  end.

(** Lines 209-268; [users] is the answer of [crud.get_users]. *)
Definition sync_admin (configs : gmap ProxyTypes (list ProxyInbound))
    (users : list (User Settings)) : M (list (Event Settings)) Report :=
  let allowed_inbounds := allowed_inbounds_of configs in
  unsuccessful ← sync_users allowed_inbounds users 0;
  mret {| total := Z.of_nat (length users);
          success := Z.of_nat (length users) - unsuccessful;
          unsuccessful := unsuccessful |}.

(** The calls one run of [sync_admin] adds to the calls made before it. *)
Definition sync_events (configs : gmap ProxyTypes (list ProxyInbound))
    (users : list (User Settings)) (h : list (Event Settings))
    : list (Event Settings) :=
  drop (length h) (sync_admin configs users h).1.

(** The calls the [try] body of one user adds to the calls made before it. *)
Definition turn_events (allowed_inbounds : gmap ProxyTypes (list string))
    (user : User Settings) (h : list (Event Settings)) : list (Event Settings) :=
  drop (length h) (sync_user allowed_inbounds user h).1.

(** Modelled from the spec: [crud.update_user] is called by the router and
    defined outside it.  Sections 3 and 6 give it as the per-user update of
    the store, transactional for that user: the patch is taken when the call
    returns and nothing is kept when it raises.  So the inbounds and the
    settings map that the store holds for [user] after the user's turn are
    those of the patch of the turn's store update when that call returned,
    and those the user had before the turn otherwise. *)
Definition held_after (allowed_inbounds : gmap ProxyTypes (list string))
    (user : User Settings) (h : list (Event Settings))
    : gmap ProxyTypes (list string) * gmap ProxyTypes Settings :=
  match turn_events allowed_inbounds user h with
  | CrudUpdateUser updated modify :: _ =>
      match crud_update_user env h updated modify with
      | Some _ => (um_inbounds modify, um_proxies modify)
      | None => (inbounds user, settings_map (proxies user))
      end
  | _ => (inbounds user, settings_map (proxies user))
  end.

End Sync.

(** The rollbacks and the store updates in a stretch of the trace. *)
Definition is_rollback {Settings : Type} (e : Event Settings) : bool :=
  match e with DbRollback => true | _ => false end.

Definition is_store_update {Settings : Type} (e : Event Settings) : bool :=
  match e with CrudUpdateUser _ _ => true | _ => false end.

Definition count_events {Settings : Type} (f : Event Settings → bool)
    (evs : list (Event Settings)) : Z :=
  Z.of_nat (length (filter (λ e, Is_true (f e)) evs)).

(** The calls of one user's turn of the loop: at most one store update, made
    for that user with the patch computed for it, and at most one rollback. *)
Definition turn_segment {Settings : Type} `{!EqDecision Settings}
    `{!SetOrder} `{!ProxyModels Settings}
    (allowed_inbounds : gmap ProxyTypes (list string))
    (user : User Settings) (segment : list (Event Settings)) : Prop :=
  count_events is_store_update segment ≤ 1
  ∧ count_events is_rollback segment ≤ 1
  ∧ ∀ updated modify,
      CrudUpdateUser updated modify ∈ segment →
      updated = user ∧ modify = modify_of allowed_inbounds user.

(** ** Bulk status operations (lines 139-166) *)

(** A remote node of [xray.nodes]; the router reads [connected] only. *)
Record Node := { connected : bool }.

(** Calls that leave the router during a bulk status operation.
    [NodeFailure] is the record [restart_node] keeps of a node that could not
    be restarted. *)
Inductive FleetEvent (Admin Config : Type) :=
| CrudDisableAllActiveUsers (admin : Admin)
| CrudActivateAllDisabledUsers (admin : Admin)
| IncludeDbUsers
| CoreRestart (config : Config)
| RestartNode (node_id : Z) (config : Config)
| NodeFailure (node_id : Z).
Arguments CrudDisableAllActiveUsers {Admin Config} _.
Arguments CrudActivateAllDisabledUsers {Admin Config} _.
Arguments IncludeDbUsers {Admin Config}.
Arguments CoreRestart {Admin Config} _.
Arguments RestartNode {Admin Config} _ _.
Arguments NodeFailure {Admin Config} _.

(** The process-wide state: the node registry [xray.nodes] (a dictionary,
    listed in insertion order, whose values are shared node objects) and the
    calls made so far. *)
Record Fleet (Admin Config : Type) := {
  nodes : list (Z * Node);
  journal : list (FleetEvent Admin Config)
}.
Arguments nodes {Admin Config} _.
Arguments journal {Admin Config} _.

(** What the collaborators answer, given the calls made so far; [false] and
    [None] stand for a raised exception.  [node_restart] is the transport: it
    gives the node object's next state and whether the node restarted. *)
Record FleetEnv (Admin Config : Type) := {
  crud_disable_all_active_users : list (FleetEvent Admin Config) → Admin → bool;
  crud_activate_all_disabled_users : list (FleetEvent Admin Config) → Admin → bool;
  xray_config_include_db_users : list (FleetEvent Admin Config) → option Config;
  xray_core_restart : list (FleetEvent Admin Config) → Config → bool;
  node_restart : list (FleetEvent Admin Config) → Z → Node → Config → Node * bool
}.
Arguments crud_disable_all_active_users {Admin Config} _ _ _.
Arguments crud_activate_all_disabled_users {Admin Config} _ _ _.
Arguments xray_config_include_db_users {Admin Config} _ _.
Arguments xray_core_restart {Admin Config} _ _ _.
Arguments node_restart {Admin Config} _ _ _ _ _.

(** [xray.nodes.get(node_id)] *)
Fixpoint nodes_get (node_id : Z) (l : list (Z * Node)) : option Node :=
  match l with
  | [] => None
  | (i, node) :: l => if decide (i = node_id) then Some node else nodes_get node_id l
  end.

(** In-place change of the node object registered under [node_id]. *)
Fixpoint nodes_set (node_id : Z) (node' : Node) (l : list (Z * Node))
    : list (Z * Node) :=
  match l with
  | [] => []
  | (i, node) :: l =>
      if decide (i = node_id) then (i, node') :: l
      else (i, node) :: nodes_set node_id node' l
  end.

(** The nodes of a registry whose [connected] flag is set, in registry
    order. *)
Definition connected_ids (l : list (Z * Node)) : list Z :=
  (filter (λ entry : Z * Node, connected entry.2 = true) l).*1.

(** The node restarts requested in a stretch of the journal, in order. *)
Definition restarted_nodes {Admin Config : Type}
    (j : list (FleetEvent Admin Config)) : list (Z * Config) :=
  omap (λ e, match e with
             | RestartNode node_id config => Some (node_id, config)
             | _ => None
             end) j.

Section Bulk.

Context {Admin Config : Type}.
Variable env : FleetEnv Admin Config.

Definition record (e : FleetEvent Admin Config) (w : Fleet Admin Config)
    : Fleet Admin Config :=
  {| nodes := nodes w; journal := journal w ++ [e] |}.

Definition call_crud_disable_all_active_users (admin : Admin)
    : M (Fleet Admin Config) unit := λ w,
  (record (CrudDisableAllActiveUsers admin) w,
   if crud_disable_all_active_users env (journal w) admin then Ok tt else Raise).

Definition call_crud_activate_all_disabled_users (admin : Admin)
    : M (Fleet Admin Config) unit := λ w,
  (record (CrudActivateAllDisabledUsers admin) w,
   if crud_activate_all_disabled_users env (journal w) admin then Ok tt else Raise).

Definition call_include_db_users : M (Fleet Admin Config) Config := λ w,
  (record IncludeDbUsers w,
   match xray_config_include_db_users env (journal w) with
   | Some startup_config => Ok startup_config
   | None => Raise
   end).

Definition call_core_restart (startup_config : Config)
    : M (Fleet Admin Config) unit := λ w,
  (record (CoreRestart startup_config) w,
   if xray_core_restart env (journal w) startup_config then Ok tt else Raise).

(** Modelled from the spec: [xray.operations.restart_node] is called by the
    router but defined outside it.  Section 4.3, failure policy: a failure
    to reach or restart an individual node is non-fatal, it is recorded or
    skipped and the sweep continues.  So the call hands the configuration to
    the node, records a failure, changes nothing but that node's own object
    and always returns to its caller. *)
Definition restart_node (node_id : Z) (startup_config : Config)
    : M (Fleet Admin Config) unit := λ w,
  let w := record (RestartNode node_id startup_config) w in
  match nodes_get node_id (nodes w) with
  | None => (w, Ok tt)
  | Some node =>
      let '(node', ok) := node_restart env (journal w) node_id node startup_config in
      let w := {| nodes := nodes_set node_id node' (nodes w); journal := journal w |} in
      (if ok then w else record (NodeFailure node_id) w, Ok tt)
  end.

(** [list(xray.nodes.items())]: a copy of the registry's entries. *)
Definition xray_nodes_items : M (Fleet Admin Config) (list (Z * Node)) := λ w,
  (w, Ok (nodes w)).

(** [node.connected]: the entry of the copy refers to the registered node
    object, so the flag is the object's current one. *)
Definition node_connected (node_id : Z) (node : Node)
    : M (Fleet Admin Config) bool := λ w,
  (w, Ok (default (connected node) (connected <$> nodes_get node_id (nodes w)))).

(** Lines 148-150 and 163-165. *)
Fixpoint restart_connected_nodes (items : list (Z * Node))
    (startup_config : Config) : M (Fleet Admin Config) unit :=
  match items with
  | [] => mret tt
  | (node_id, node) :: items =>
      is_connected ← node_connected node_id node;
      (if is_connected : bool then restart_node node_id startup_config else mret tt) ;;
      restart_connected_nodes items startup_config
  end.

(** Lines 140-151. *)
Definition disable_all_active_users (dbadmin : Admin)
    : M (Fleet Admin Config) string :=
  call_crud_disable_all_active_users dbadmin ;;
  startup_config ← call_include_db_users;
  call_core_restart startup_config ;;
  items ← xray_nodes_items;
  restart_connected_nodes items startup_config ;;
  mret "Users successfully disabled"%string.

(** Lines 155-166. *)
Definition activate_all_disabled_users (dbadmin : Admin)
    : M (Fleet Admin Config) string :=
  call_crud_activate_all_disabled_users dbadmin ;;
  startup_config ← call_include_db_users;
  call_core_restart startup_config ;;
  items ← xray_nodes_items;
  restart_connected_nodes items startup_config ;;
  mret "Users successfully activated"%string.

(** The events of a node sweep with [startup_config]: restarts with that
    configuration, and failures of nodes that the transport could not
    restart. *)
Definition sweep_event (startup_config : Config) (e : FleetEvent Admin Config) : Prop :=
  match e with
  | RestartNode _ config => config = startup_config
  | NodeFailure node_id =>
      ∃ (j : list (FleetEvent Admin Config)) (node : Node),
        (node_restart env j node_id node startup_config).2 = false
  | _ => False
  end.

End Bulk.

(** ** Client address and login (lines 20-51) *)

(** [str.isspace] on one character.  Header values reach the router decoded
    as Latin-1, so a character is a code point below 256; among those the
    white space of [str.strip()] is 9-13, 28-32, 133 and 160. *)
Definition is_space (c : Ascii.ascii) : bool :=
  let n := Ascii.nat_of_ascii c in
  ((9 <=? n) && (n <=? 13) || (28 <=? n) && (n <=? 32)
   || (n =? 133) || (n =? 160))%nat.

(** [s.lstrip()] *)
Fixpoint lstrip (s : string) : string :=
  match s with
  | EmptyString => EmptyString
  | String c s' => if is_space c then lstrip s' else s
  end.

(** [s.rstrip()] *)
Fixpoint rstrip (s : string) : string :=
  match s with
  | EmptyString => EmptyString
  | String c s' =>
      match rstrip s' with
      | EmptyString => if is_space c then EmptyString else String c EmptyString
      | r => String c r
      end
  end.

(** [s.strip()] *)
Definition strip (s : string) : string := lstrip (rstrip s).

(** The separator of line 24, [","], code point 44. *)
Definition comma : Ascii.ascii := Ascii.ascii_of_nat 44.

(** [s.split(",")]: the fields between the commas; never an empty list. *)
Fixpoint split_comma (s : string) : list string :=
  match s with
  | EmptyString => [EmptyString]
  | String c s' =>
      if Ascii.eqb c comma then EmptyString :: split_comma s'
      else match split_comma s' with
           | field :: fields => String c field :: fields
           | [] => [String c EmptyString]
           end
  end.

(** A text made of white space only. *)
Fixpoint all_space (s : string) : bool :=
  match s with
  | EmptyString => true
  | String c s' => is_space c && all_space s'
  end.

(** A text whose first character is white space. *)
Definition starts_with_space (s : string) : bool :=
  match s with
  | EmptyString => false
  | String c _ => is_space c
  end.

(** A text whose last character is white space. *)
Fixpoint ends_with_space (s : string) : bool :=
  match s with
  | EmptyString => false
  | String c EmptyString => is_space c
  | String _ s' => ends_with_space s'
  end.

(** A text with a comma in it. *)
Fixpoint has_comma (s : string) : bool :=
  match s with
  | EmptyString => false
  | String c s' => Ascii.eqb c comma || has_comma s'
  end.

(** [request.client] *)
Record Address := { host : string }.

(** The parts of a request that [get_client_ip] reads:
    [request.headers.get("X-Forwarded-For")] and [request.client]. *)
Record Request := {
  x_forwarded_for : option string;
  client : option Address
}.

(** Lines 20-27.  An absent header and an empty header are both false; the
    first field of a split always exists. *)
Definition get_client_ip (request : Request) : string :=
  match x_forwarded_for request with
  | Some (String c rest) =>
      strip (hd EmptyString (split_comma (String c rest)))
  | _ =>
      match client request with
      | Some address => host address
      | None => "Unknown"%string
      end
  end.

(** A row of the admin table: the attributes the router reads. *)
Record DbAdmin := { username : string; is_sudo : bool }.

(** What a handler answers: a value, an [HTTPException] with its status code,
    detail and headers, or any other exception, which the router lets
    through. *)
Inductive Answer (A : Type) :=
| Return (a : A)
| HTTPException (status_code : Z) (detail : string) (headers : list (string * string))
| OtherError.
Arguments Return {A} _.
Arguments HTTPException {A} _ _ _.
Arguments OtherError {A}.

Section Login.

(** User names and passwords are arbitrary text; [lock] is the one-character
    text that line 49 reports in place of the password. *)
Context {Text Token : Type}.
Variable lock : Text.

(** [report.login(username, password, client_ip, success)] *)
Inductive LoginReport :=
| ReportLogin (reported_username reported_password : Text)
    (client_ip : string) (success : bool).

(** [validate_admin(db, username, password)], [create_admin_token(username,
    is_sudo)] and the configured [LOGIN_NOTIFY_WHITE_LIST]. *)
Variable validate_admin : Text → Text → option DbAdmin.
Variable create_admin_token : Text → bool → Token.
Variable LOGIN_NOTIFY_WHITE_LIST : list string.

(** Lines 31-51: the reports made, in order, and the answer. *)
Definition admin_token (request : Request) (form_username form_password : Text)
    : list LoginReport * Answer Token :=
  let client_ip := get_client_ip request in
  match validate_admin form_username form_password with
  | None =>
      ([ReportLogin form_username form_password client_ip false],
       HTTPException 401 "Incorrect username or password"
         [("WWW-Authenticate", "Bearer")]%string)
  | Some dbadmin =>
      ((if bool_decide (client_ip ∉ LOGIN_NOTIFY_WHITE_LIST)
        then [ReportLogin form_username lock client_ip true] else []),
       Return (create_admin_token form_username (is_sudo dbadmin)))
  end.

End Login.

(** ** Admin accounts (lines 54-114) *)

(** What [crud.create_admin] does: it returns the new row, raises
    [IntegrityError], or raises something else. *)
Inductive CreateResult :=
| Created (dbadmin : DbAdmin)
| IntegrityError
| CreateFailed.

(** Calls that leave the router in the account handlers. *)
Inductive AdminEvent (NewAdmin ModifiedAdmin : Type) :=
| CrudCreateAdmin (new_admin : NewAdmin)
| CrudUpdateAdmin (dbadmin : DbAdmin) (modified_admin : ModifiedAdmin)
| CrudRemoveAdmin (dbadmin : DbAdmin)
| AdminRollback.
Arguments CrudCreateAdmin {NewAdmin ModifiedAdmin} _.
Arguments CrudUpdateAdmin {NewAdmin ModifiedAdmin} _ _.
Arguments CrudRemoveAdmin {NewAdmin ModifiedAdmin} _.
Arguments AdminRollback {NewAdmin ModifiedAdmin}.

Section Accounts.

Context {NewAdmin ModifiedAdmin : Type}.

(** The answers of [crud.create_admin], [crud.update_admin] and
    [crud.remove_admin]; [None] and [false] stand for a raised exception. *)
Variable crud_create_admin : NewAdmin → CreateResult.
Variable crud_update_admin : DbAdmin → ModifiedAdmin → option DbAdmin.
Variable crud_remove_admin : DbAdmin → bool.

(** Lines 59-71. *)
Definition create_admin (new_admin : NewAdmin)
    : list (AdminEvent NewAdmin ModifiedAdmin) * Answer DbAdmin :=
  match crud_create_admin new_admin with
  | Created dbadmin => ([CrudCreateAdmin new_admin], Return dbadmin)
  | IntegrityError =>
      ([CrudCreateAdmin new_admin; AdminRollback],
       HTTPException 409 "Admin already exists" [])
  | CreateFailed => ([CrudCreateAdmin new_admin], OtherError)
  end.

(** Lines 79-94; [current_admin] is the caller. *)
Definition modify_admin (modified_admin : ModifiedAdmin)
    (dbadmin current_admin : DbAdmin)
    : list (AdminEvent NewAdmin ModifiedAdmin) * Answer DbAdmin :=
  if bool_decide (username dbadmin ≠ username current_admin) && is_sudo dbadmin
  then ([], HTTPException 403
              "You're not allowed to edit another sudoer's account. Use marzban-cli instead."
              [])
  else
    match crud_update_admin dbadmin modified_admin with
    | Some updated_admin =>
        ([CrudUpdateAdmin dbadmin modified_admin], Return updated_admin)
    | None => ([CrudUpdateAdmin dbadmin modified_admin], OtherError)
    end.

(** Lines 101-114. *)
Definition remove_admin (dbadmin current_admin : DbAdmin)
    : list (AdminEvent NewAdmin ModifiedAdmin) * Answer string :=
  if is_sudo dbadmin
  then ([], HTTPException 403
              "You're not allowed to delete sudo accounts. Use marzban-cli instead."
              [])
  else
    if crud_remove_admin dbadmin
    then ([CrudRemoveAdmin dbadmin], Return "Admin removed successfully"%string)
    else ([CrudRemoveAdmin dbadmin], OtherError).

End Accounts.

(** ** Concrete runs *)

Module Examples.

(** The scenario of section 8 of the specification. *)
Definition policy : gmap ProxyTypes (list ProxyInbound) :=
  {[ VMess := [ {| tag := "tag1" |}; {| tag := "tag2" |} ] ]}.

Definition models : ProxyModels string :=
  {| ShadowsocksSettings_dict := "ss-default";
     VMessSettings_dict := "vmess-default";
     VLESSSettings_dict := "vless-default";
     TrojanSettings_dict := "trojan-default" |}.

Definition alice : User string :=
  {| inbounds := {[ VMess := ["tag1"%string]; Trojan := ["tagX"%string] ]};
     proxies := [ {| type := VMess; settings := "vmess-alice"%string |};
                  {| type := Trojan; settings := "trojan-alice"%string |} ];
     status := active |}.

Definition alice_synced : User string :=
  {| inbounds := {[ VMess := ["tag1"; "tag2"]%string ]};
     proxies := [ {| type := VMess; settings := "vmess-alice"%string |} ];
     status := active |}.

Definition bob : User string :=
  {| inbounds := ∅; proxies := []; status := disabled |}.

Definition carol : User string :=
  {| inbounds := {[ Shadowsocks := ["tag9"%string] ]};
     proxies := [ {| type := Shadowsocks; settings := "ss-carol"%string |} ];
     status := limited |}.

(** A store that keeps the patch as it is given and leaves the status
    alone. *)
Definition store_patch (user : User string) (modify : UserModify string)
    : User string :=
  {| inbounds := um_inbounds modify;
     proxies := (λ kv : ProxyTypes * string, {| type := kv.1; settings := kv.2 |})
                  <$> map_to_list (um_proxies modify);
     status := status user |}.

Definition faithful_env : SyncEnv string :=
  {| UserModify_accepts _ _ := true;
     crud_update_user _ user modify := Some (store_patch user modify);
     xray_operations_update_user _ _ := true;
     db_rollback_returns _ := true |}.

(** A store that refuses every update. *)
Definition refusing_env : SyncEnv string :=
  {| UserModify_accepts _ _ := true;
     crud_update_user _ _ _ := None;
     xray_operations_update_user _ _ := true;
     db_rollback_returns _ := true |}.

(** A store that refuses the update of limited users. *)
Definition picky_env : SyncEnv string :=
  {| UserModify_accepts _ _ := true;
     crud_update_user _ user modify :=
       if bool_decide (status user = limited) then None
       else Some (store_patch user modify);
     xray_operations_update_user _ _ := true;
     db_rollback_returns _ := true |}.

(** Nodes that cannot be reached for a push. *)
Definition unreachable_env : SyncEnv string :=
  {| UserModify_accepts _ _ := true;
     crud_update_user _ user modify := Some (store_patch user modify);
     xray_operations_update_user _ _ := false;
     db_rollback_returns _ := true |}.

(** A store that refuses every update and cannot roll back either. *)
Definition stuck_env : SyncEnv string :=
  {| UserModify_accepts _ _ := true;
     crud_update_user _ _ _ := None;
     xray_operations_update_user _ _ := true;
     db_rollback_returns _ := false |}.

(** A user with an inbound and no proxy row. *)
Definition erin : User string :=
  {| inbounds := {[ VMess := ["tag1"%string] ]}; proxies := []; status := active |}.

(** A policy that lists one inbound twice. *)
Definition twice_policy : gmap ProxyTypes (list ProxyInbound) :=
  {[ VMess := [ {| tag := "a" |}; {| tag := "a" |} ] ]}.

Definition dave : User string :=
  {| inbounds := ∅; proxies := []; status := active |}.

Definition dave_synced : User string :=
  {| inbounds := {[ VMess := ["a"; "a"]%string ]};
     proxies := [ {| type := VMess; settings := "vmess-default"%string |} ];
     status := active |}.

(** Three connected nodes and one disconnected node; node 2 cannot be
    restarted. *)
Definition fleet : Fleet string string :=
  {| nodes := [ (1, {| connected := true |}); (2, {| connected := true |});
                (5, {| connected := false |}); (3, {| connected := true |}) ];
     journal := [] |}.

Definition fleet_env : FleetEnv string string :=
  {| crud_disable_all_active_users _ _ := true;
     crud_activate_all_disabled_users _ _ := true;
     xray_config_include_db_users _ := Some "config"%string;
     xray_core_restart _ _ := true;
     node_restart _ node_id node _ :=
       if bool_decide (node_id = 2) then ({| connected := false |}, false)
       else (node, true) |}.

Definition broken_core_env : FleetEnv string string :=
  {| crud_disable_all_active_users _ _ := true;
     crud_activate_all_disabled_users _ _ := true;
     xray_config_include_db_users _ := Some "config"%string;
     xray_core_restart _ _ := false;
     node_restart _ _ node _ := (node, true) |}.

End Examples.

Module RouterExamples.

(** A request that came through a proxy. *)
Definition proxied : Request :=
  {| x_forwarded_for := Some " 203.0.113.7 , 10.0.0.1"%string;
     client := Some {| host := "10.0.0.1" |} |}.

(** One account, [root] with password [secret]; the text credentials are
    strings and a token is the pair it was made from. *)
Definition root : DbAdmin := {| username := "root"; is_sudo := true |}.

Definition staff : DbAdmin := {| username := "staff"; is_sudo := false |}.

Definition validate (form_username form_password : string) : option DbAdmin :=
  if bool_decide (form_username = "root"%string ∧ form_password = "secret"%string)
  then Some root else None.

Definition make_token (form_username : string) (sudo : bool) : string * bool :=
  (form_username, sudo).

Definition white_list : list string := ["127.0.0.1"; "203.0.113.7"]%string.


(** A fleet without a connected node, a store whose bulk change raises and a
    configuration builder that raises. *)
Definition idle_fleet : Fleet string string :=
  {| nodes := [ (1, {| connected := false |}); (2, {| connected := false |}) ];
     journal := [] |}.

Definition failing_store_env : FleetEnv string string :=
  {| crud_disable_all_active_users _ _ := false;
     crud_activate_all_disabled_users _ _ := false;
     xray_config_include_db_users _ := Some "config"%string;
     xray_core_restart _ _ := true;
     node_restart _ _ node _ := (node, true) |}.

Definition failing_builder_env : FleetEnv string string :=
  {| crud_disable_all_active_users _ _ := true;
     crud_activate_all_disabled_users _ _ := true;
     xray_config_include_db_users _ := None;
     xray_core_restart _ _ := true;
     node_restart _ _ node _ := (node, true) |}.

End RouterExamples.

(** ** Facts about the reconciliation of one user *)

Section ReconciliationFacts.

Context {Settings : Type} `{!EqDecision Settings}.
Context `{!SetOrder} `{!ProxyModels Settings}.

Implicit Types (allowed_inbounds new_inbounds : gmap ProxyTypes (list string)).
Implicit Types (user : User Settings) (protocol : ProxyTypes).

Lemma carried_inbounds_lookup allowed_inbounds
    (user_inbounds : gmap ProxyTypes (list string)) protocol :
  carried_inbounds allowed_inbounds user_inbounds !! protocol =
    match user_inbounds !! protocol, allowed_inbounds !! protocol with
    | Some tags, Some allowed_tags =>
        match keep_allowed allowed_tags tags with
        | [] => None
        | new_tags => Some new_tags
        end
    | _, _ => None
    end.
Proof.
  unfold carried_inbounds.
  apply (map_fold_weak_ind (λ r (m : gmap ProxyTypes (list string)),
    r !! protocol =
      match m !! protocol, allowed_inbounds !! protocol with
      | Some tags, Some allowed_tags =>
          match keep_allowed allowed_tags tags with
          | [] => None
          | new_tags => Some new_tags
          end
      | _, _ => None
      end)).
  - by rewrite !lookup_empty.
  - intros i x m r Hi IH. unfold carry_step.
    destruct (decide (i = protocol)) as [->|Hne].
    + rewrite lookup_insert_eq. rewrite Hi in IH.
      destruct (allowed_inbounds !! protocol) as [allowed_tags|]; [|done].
      destruct (keep_allowed allowed_tags x); [done|].
      by rewrite lookup_insert_eq.
    + rewrite (lookup_insert_ne m) by done. rewrite <- IH.
      destruct (allowed_inbounds !! i) as [allowed_tags|]; [|done].
      destruct (keep_allowed allowed_tags x); [done|].
      by rewrite lookup_insert_ne.
Qed.

Lemma grant_lookup (carried : gmap ProxyTypes (list string)) allowed_inbounds protocol :
  map_fold grant_step carried allowed_inbounds !! protocol =
    match allowed_inbounds !! protocol with
    | Some tags =>
        Some (match carried !! protocol with
              | Some existing_tags => list_set_union existing_tags tags
              | None => tags
              end)
    | None => carried !! protocol
    end.
Proof.
  apply (map_fold_weak_ind (λ r (m : gmap ProxyTypes (list string)),
    r !! protocol =
      match m !! protocol with
      | Some tags =>
          Some (match carried !! protocol with
                | Some existing_tags => list_set_union existing_tags tags
                | None => tags
                end)
      | None => carried !! protocol
      end)).
  - by rewrite lookup_empty.
  - intros i x m r Hi IH. unfold grant_step.
    destruct (decide (i = protocol)) as [->|Hne].
    + rewrite Hi in IH. rewrite lookup_insert_eq, IH.
      destruct (carried !! protocol); by rewrite lookup_insert_eq.
    + rewrite (lookup_insert_ne m) by done. rewrite <- IH.
      destruct (r !! i); by rewrite lookup_insert_ne.
Qed.

Lemma carried_inbounds_allowed allowed_inbounds
    (user_inbounds : gmap ProxyTypes (list string)) protocol existing_tags :
  carried_inbounds allowed_inbounds user_inbounds !! protocol = Some existing_tags →
  ∃ tags allowed_tags,
    user_inbounds !! protocol = Some tags ∧
    allowed_inbounds !! protocol = Some allowed_tags ∧
    existing_tags = keep_allowed allowed_tags tags ∧
    existing_tags ≠ [].
Proof.
  rewrite carried_inbounds_lookup.
  destruct (user_inbounds !! protocol) as [tags|]; [|done].
  destruct (allowed_inbounds !! protocol) as [allowed_tags|]; [|done].
  destruct (keep_allowed allowed_tags tags) eqn:E; [done|].
  intros [= <-]. exists tags, allowed_tags. by rewrite E.
Qed.

(** The new inbounds of a user, protocol by protocol. *)
Lemma sync_new_inbounds_lookup allowed_inbounds user protocol :
  sync_new_inbounds allowed_inbounds user !! protocol =
    match allowed_inbounds !! protocol with
    | Some tags =>
        Some (match carried_inbounds allowed_inbounds (inbounds user) !! protocol with
              | Some existing_tags => list_set_union existing_tags tags
              | None => tags
              end)
    | None => None
    end.
Proof.
  unfold sync_new_inbounds. rewrite grant_lookup.
  destruct (allowed_inbounds !! protocol) as [tags|] eqn:Ha; [done|].
  simpl. rewrite carried_inbounds_lookup, Ha.
  by destruct (inbounds user !! protocol).
Qed.

Lemma sync_new_inbounds_tags allowed_inbounds user protocol tags :
  allowed_inbounds !! protocol = Some tags →
  ∃ new_tags,
    sync_new_inbounds allowed_inbounds user !! protocol = Some new_tags ∧
    ∀ t, t ∈ new_tags ↔ t ∈ tags.
Proof.
  intros Ha. rewrite sync_new_inbounds_lookup, Ha. simpl.
  destruct (carried_inbounds _ _ !! protocol) as [existing_tags|] eqn:Hc.
  - eexists; split; [done|]. intros t. rewrite list_set_union_elem.
    apply carried_inbounds_allowed in Hc as (ts & ats & _ & Ha' & -> & _).
    rewrite Ha in Ha'. injection Ha' as <-.
    unfold keep_allowed. rewrite list_elem_of_filter. tauto.
  - eexists; split; done.
Qed.

Lemma sync_new_inbounds_dom allowed_inbounds user :
  dom (sync_new_inbounds allowed_inbounds user) = dom allowed_inbounds.
Proof.
  apply set_eq. intros protocol. rewrite !elem_of_dom, sync_new_inbounds_lookup.
  destruct (allowed_inbounds !! protocol); simpl.
  - split; eauto.
  - split; intros []; done.
Qed.

Lemma settings_map_snoc (ps : list (Proxy Settings)) (p : Proxy Settings) :
  settings_map (ps ++ [p]) = <[type p := settings p]> (settings_map ps).
Proof. unfold settings_map. by rewrite foldl_app. Qed.

Lemma kept_proxies_lookup new_inbounds (ps : list (Proxy Settings)) protocol :
  kept_proxies new_inbounds ps !! protocol =
    match new_inbounds !! protocol with
    | Some _ => settings_map ps !! protocol
    | None => None
    end.
Proof.
  induction ps as [|p ps IH] using rev_ind.
  - unfold kept_proxies, settings_map. simpl. rewrite !lookup_empty.
    by destruct (new_inbounds !! protocol).
  - rewrite settings_map_snoc. unfold kept_proxies in *. rewrite foldl_app. simpl.
    destruct (decide (type p = protocol)) as [<-|Hne].
    + rewrite lookup_insert_eq. case_bool_decide as Hin.
      * destruct Hin as [ts Hin]. by rewrite Hin, lookup_insert_eq.
      * rewrite IH. destruct (new_inbounds !! type p) eqn:E; [|done].
        destruct Hin. eauto.
    + rewrite (lookup_insert_ne (settings_map ps)) by done. rewrite <- IH.
      case_bool_decide; [by rewrite lookup_insert_ne | done].
Qed.

Lemma default_step_lookup (kept : gmap ProxyTypes Settings) new_inbounds protocol :
  map_fold default_step kept new_inbounds !! protocol =
    match kept !! protocol with
    | Some s => Some s
    | None =>
        match new_inbounds !! protocol with
        | Some _ => Some (default_settings protocol)
        | None => None
        end
    end.
Proof.
  apply (map_fold_weak_ind (λ r (m : gmap ProxyTypes (list string)),
    r !! protocol =
      match kept !! protocol with
      | Some s => Some s
      | None =>
          match m !! protocol with
          | Some _ => Some (default_settings protocol)
          | None => None
          end
      end)).
  - rewrite lookup_empty. by destruct (kept !! protocol).
  - intros i x m r Hi IH. unfold default_step.
    destruct (decide (i = protocol)) as [->|Hne].
    + rewrite Hi in IH. rewrite lookup_insert_eq, IH.
      destruct (kept !! protocol) as [s|]; [done|].
      destruct protocol; simpl; by rewrite lookup_insert_eq.
    + rewrite (lookup_insert_ne m) by done. rewrite <- IH.
      destruct (r !! i); [done|].
      destruct i; simpl; by rewrite lookup_insert_ne.
Qed.

(** The new settings of a user, protocol by protocol. *)
Lemma sync_new_proxies_lookup new_inbounds user protocol :
  sync_new_proxies new_inbounds user !! protocol =
    match new_inbounds !! protocol with
    | Some _ =>
        Some (default (default_settings protocol)
                      (settings_map (proxies user) !! protocol))
    | None => None
    end.
Proof.
  unfold sync_new_proxies. rewrite default_step_lookup, kept_proxies_lookup.
  destruct (new_inbounds !! protocol); [|done].
  by destruct (settings_map (proxies user) !! protocol).
Qed.

(** The inbounds computed for a user have exactly the protocols of the
    policy as keys; under each protocol the tags are, as a set, the tags of
    the policy; a protocol the user had that the policy does not name is
    gone. *)
Lemma new_inbounds_is_policy
    (configs : gmap ProxyTypes (list ProxyInbound)) user :
  let new_inbounds := sync_new_inbounds (allowed_inbounds_of configs) user in
  dom new_inbounds = dom configs
  ∧ (∀ protocol (policy_inbounds : list ProxyInbound),
       configs !! protocol = Some policy_inbounds →
       ∃ new_tags : list string,
         new_inbounds !! protocol = Some new_tags
         ∧ ∀ t : string, t ∈ new_tags ↔ t ∈ tag <$> policy_inbounds)
  ∧ (∀ protocol,
       is_Some (inbounds user !! protocol) → configs !! protocol = None →
       new_inbounds !! protocol = None).
Proof.
  simpl. split; [|split].
  - rewrite sync_new_inbounds_dom. unfold allowed_inbounds_of. by rewrite dom_fmap_L.
  - intros protocol policy_inbounds Hc.
    apply sync_new_inbounds_tags. unfold allowed_inbounds_of.
    by rewrite lookup_fmap, Hc.
  - intros protocol _ Hc. rewrite sync_new_inbounds_lookup.
    unfold allowed_inbounds_of. by rewrite lookup_fmap, Hc.
Qed.

(** Every (protocol, tag) pair of the inbounds computed for a user is a pair
    of the policy. *)
Lemma new_inbounds_within_policy
    (configs : gmap ProxyTypes (list ProxyInbound)) user :
  within_policy configs (sync_new_inbounds (allowed_inbounds_of configs) user).
Proof.
  intros protocol new_tags t Hn Ht.
  destruct (configs !! protocol) as [policy_inbounds|] eqn:Hc.
  - exists policy_inbounds. split; [done|].
    destruct (sync_new_inbounds_tags (allowed_inbounds_of configs) user protocol
                (tag <$> policy_inbounds)) as (ts & Hts & Hiff).
    { unfold allowed_inbounds_of. by rewrite lookup_fmap, Hc. }
    rewrite Hn in Hts. injection Hts as <-. by apply Hiff.
  - rewrite sync_new_inbounds_lookup in Hn. unfold allowed_inbounds_of in Hn.
    by rewrite lookup_fmap, Hc in Hn.
Qed.

Lemma unchanged_inbounds allowed_inbounds user :
  changed allowed_inbounds user = false →
  inbounds user = sync_new_inbounds allowed_inbounds user
  ∧ settings_map (proxies user) =
      sync_new_proxies (sync_new_inbounds allowed_inbounds user) user.
Proof.
  unfold changed. simpl. intros [H1 H2]%orb_false_elim.
  apply bool_decide_eq_false in H1, H2.
  split; symmetry.
  - by destruct (decide (sync_new_inbounds allowed_inbounds user = inbounds user)).
  - by destruct (decide (sync_new_proxies (sync_new_inbounds allowed_inbounds user) user
                         = settings_map (proxies user))).
Qed.

(** The settings map computed for a user has exactly the protocols of the
    computed inbounds as keys. *)
Lemma new_proxies_keys new_inbounds user :
  dom (sync_new_proxies new_inbounds user) = dom new_inbounds.
Proof.
  apply set_eq. intros protocol.
  rewrite !elem_of_dom, sync_new_proxies_lookup.
  destruct (new_inbounds !! protocol); simpl.
  - split; eauto.
  - split; intros []; done.
Qed.

Lemma keep_allowed_all (allowed_tags tags : list string) :
  (∀ t : string, t ∈ tags → t ∈ allowed_tags) → keep_allowed allowed_tags tags = tags.
Proof.
  unfold keep_allowed. induction tags as [|t tags IH]; intros Hall; [done|].
  rewrite filter_cons_True by (apply Hall, list_elem_of_here).
  f_equal. apply IH. intros t' Ht'. apply Hall. by apply list_elem_of_further.
Qed.

(** A user who holds what sync computed is computed the same again, as long
    as listing the union of the stored tags with the policy tags gives the
    stored list back. *)
Lemma stored_is_unchanged allowed_inbounds (user stored : User Settings) :
  inbounds stored = sync_new_inbounds allowed_inbounds user →
  settings_map (proxies stored) =
    sync_new_proxies (sync_new_inbounds allowed_inbounds user) user →
  (∀ protocol (tags stored_tags : list string),
     allowed_inbounds !! protocol = Some tags →
     inbounds stored !! protocol = Some stored_tags →
     stored_tags ≠ [] →
     list_set_union stored_tags tags = stored_tags) →
  changed allowed_inbounds stored = false.
Proof.
  intros Hi Hp Hstable.
  assert (sync_new_inbounds allowed_inbounds stored = inbounds stored) as Hni.
  { apply map_eq. intros protocol.
    rewrite sync_new_inbounds_lookup, carried_inbounds_lookup.
    destruct (allowed_inbounds !! protocol) as [tags|] eqn:Ha.
    - destruct (sync_new_inbounds_tags allowed_inbounds user protocol tags Ha)
        as (stored_tags & Hs & Hiff).
      rewrite <- Hi in Hs. rewrite Hs.
      rewrite keep_allowed_all by (intros t; apply Hiff).
      destruct (decide (stored_tags = [])) as [->|Hne].
      + destruct tags as [|t tags]; [done|].
        exfalso. eapply not_elem_of_nil, Hiff, list_elem_of_here.
      + destruct stored_tags as [|t0 rest]; [done|].
        f_equal. by eapply Hstable.
    - rewrite Hi, sync_new_inbounds_lookup, Ha.
      by destruct (sync_new_inbounds allowed_inbounds user !! protocol). }
  assert (sync_new_proxies (inbounds stored) stored = settings_map (proxies stored))
    as Hnp.
  { apply map_eq. intros protocol.
    rewrite sync_new_proxies_lookup, Hp, sync_new_proxies_lookup, <- Hi.
    by destruct (inbounds stored !! protocol). }
  unfold changed. simpl. rewrite Hni, Hnp.
  rewrite !bool_decide_eq_false_2; [done| |]; by intros [].
Qed.

End ReconciliationFacts.

(** ** Facts about a run of [sync_admin] *)

Section SyncFacts.

Context {Settings : Type} `{!EqDecision Settings}.
Context `{!SetOrder} `{!ProxyModels Settings}.
Variable env : SyncEnv Settings.

Implicit Types (allowed_inbounds : gmap ProxyTypes (list string)).
Implicit Types (user : User Settings) (h : list (Event Settings)).

(** The try body, call by call. *)
Lemma sync_user_unfold allowed_inbounds user h :
  sync_user env allowed_inbounds user h =
    let modify := modify_of allowed_inbounds user in
    if changed allowed_inbounds user then
      if UserModify_accepts env (um_inbounds modify) (um_proxies modify) then
        match crud_update_user env h user modify with
        | Some user' =>
            if bool_decide (status user' ∈ [active; on_hold]) then
              (h ++ [CrudUpdateUser user modify; XrayUpdateUser user'],
               if xray_operations_update_user env
                    (h ++ [CrudUpdateUser user modify]) user'
               then Ok tt else Raise)
            else (h ++ [CrudUpdateUser user modify], Ok tt)
        | None => (h ++ [CrudUpdateUser user modify], Raise)
        end
      else (h, Raise)
    else (h, Ok tt).
Proof.
  unfold sync_user, modify_of. simpl.
  destruct (changed allowed_inbounds user); [|done].
  unfold mbind, M_bind, UserModify_new.
  destruct (UserModify_accepts _ _ _); [|done].
  unfold call_crud_update_user.
  destruct (crud_update_user _ _ _ _) as [user'|]; [|done].
  case_bool_decide; [|done].
  unfold call_xray_update_user. rewrite <- app_assoc. simpl.
  by destruct (xray_operations_update_user _ _ _).
Qed.

(** One turn of the loop: the handler rolls back and counts, unless the
    rollback itself raises. *)
Lemma sync_users_cons allowed_inbounds user (users : list (User Settings))
    (unsuccessful : Z) h :
  sync_users env allowed_inbounds (user :: users) unsuccessful h =
    match sync_user env allowed_inbounds user h with
    | (h', Ok _) => sync_users env allowed_inbounds users unsuccessful h'
    | (h', Raise) =>
        if db_rollback_returns env h'
        then sync_users env allowed_inbounds users (unsuccessful + 1)
               (h' ++ [DbRollback])
        else (h' ++ [DbRollback], Raise)
    end.
Proof.
  simpl. unfold mbind, M_bind, try_except, db_rollback, mret, M_ret.
  destruct (sync_user env allowed_inbounds user h) as [h' [[]|]]; [done|].
  by destruct (db_rollback_returns env h').
Qed.

Lemma sync_users_app allowed_inbounds (us1 us2 : list (User Settings))
    (unsuccessful : Z) h :
  sync_users env allowed_inbounds (us1 ++ us2) unsuccessful h =
    match sync_users env allowed_inbounds us1 unsuccessful h with
    | (h', Ok k) => sync_users env allowed_inbounds us2 k h'
    | (h', Raise) => (h', Raise)
    end.
Proof.
  revert unsuccessful h. induction us1 as [|u us1 IH]; intros n h; [done|].
  rewrite <- app_comm_cons, !sync_users_cons.
  destruct (sync_user env allowed_inbounds u h) as [h' [[]|]]; [apply IH|].
  destruct (db_rollback_returns env h'); [apply IH|done].
Qed.

(** What the try body of one user adds to the trace. *)
Lemma sync_user_trace allowed_inbounds user h :
  ∃ evs : list (Event Settings),
    (sync_user env allowed_inbounds user h).1 = h ++ evs
    ∧ (∀ u m, CrudUpdateUser u m ∈ evs →
         u = user ∧ m = modify_of allowed_inbounds user
         ∧ changed allowed_inbounds user = true)
    ∧ (∀ x, XrayUpdateUser x ∈ evs → status x = active ∨ status x = on_hold)
    ∧ (DbRollback ∉ evs)
    ∧ ((sync_user env allowed_inbounds user h).2 = Ok tt →
       changed allowed_inbounds user = true →
       CrudUpdateUser user (modify_of allowed_inbounds user) ∈ evs).
Proof.
  rewrite sync_user_unfold. simpl.
  destruct (changed allowed_inbounds user) eqn:Hc.
  2:{ exists []. rewrite app_nil_r. repeat split; intros; simplify_eq; set_solver. }
  destruct (UserModify_accepts _ _ _).
  2:{ exists []. rewrite app_nil_r. repeat split; intros; simplify_eq; set_solver. }
  destruct (crud_update_user _ _ _ _) as [user'|].
  2:{ eexists; split; [done|]. repeat split; intros; simplify_eq; set_solver. }
  case_bool_decide as Hs.
  - eexists; split; [done|]. repeat split; intros; simplify_eq; set_solver.
  - eexists; split; [done|]. repeat split; intros; simplify_eq; set_solver.
Qed.

Lemma turn_events_trace allowed_inbounds user h :
  (sync_user env allowed_inbounds user h).1 = h ++ turn_events env allowed_inbounds user h.
Proof.
  unfold turn_events.
  destruct (sync_user_trace allowed_inbounds user h) as (evs & -> & _).
  by rewrite drop_app_length.
Qed.

(** What the loop adds to the trace, and what it counts when it returns. *)
Lemma sync_users_trace allowed_inbounds (users : list (User Settings))
    (unsuccessful : Z) h :
  ∃ (evs : list (Event Settings)) (r : Result Z),
    sync_users env allowed_inbounds users unsuccessful h = (h ++ evs, r)
    ∧ (∀ k, r = Ok k →
         unsuccessful ≤ k ≤ unsuccessful + Z.of_nat (length users))
    ∧ (∀ u m, CrudUpdateUser u m ∈ evs →
         u ∈ users ∧ m = modify_of allowed_inbounds u
         ∧ changed allowed_inbounds u = true)
    ∧ (∀ x, XrayUpdateUser x ∈ evs → status x = active ∨ status x = on_hold).
Proof.
  revert unsuccessful h. induction users as [|u users IH]; intros n h.
  { exists [], (Ok n). rewrite app_nil_r. simpl. split_and!; [done| | |].
    - intros k [= <-]. lia.
    - by intros ?? ?%elem_of_nil.
    - by intros ? ?%elem_of_nil. }
  rewrite sync_users_cons.
  destruct (sync_user_trace allowed_inbounds u h) as (evs & Hh & Hw & Hp & _).
  destruct (sync_user env allowed_inbounds u h) as [h' r]. simpl in Hh. subst h'.
  destruct r as [[]|].
  - destruct (IH n (h ++ evs)) as (evs' & r & -> & Hk & Hw' & Hp').
    exists (evs ++ evs'), r. rewrite app_assoc. split; [done|]. split_and!.
    + intros k Hr. specialize (Hk k Hr). rewrite length_cons. lia.
    + intros v m [Hv|Hv]%elem_of_app; [apply Hw in Hv|apply Hw' in Hv]; set_solver.
    + intros x [Hx|Hx]%elem_of_app; eauto.
  - destruct (db_rollback_returns env (h ++ evs)).
    + destruct (IH (n + 1) ((h ++ evs) ++ [DbRollback]))
        as (evs' & r & -> & Hk & Hw' & Hp').
      exists (evs ++ [DbRollback] ++ evs'), r. rewrite !app_assoc.
      split; [done|]. split_and!.
      * intros k Hr. specialize (Hk k Hr). rewrite length_cons. lia.
      * intros v m. rewrite !elem_of_app. intros [[Hv|Hv]|Hv];
          [apply Hw in Hv|set_solver|apply Hw' in Hv]; set_solver.
      * intros x. rewrite !elem_of_app. intros [[Hx|Hx]|Hx]; eauto. set_solver.
    + exists (evs ++ [DbRollback]), Raise. rewrite app_assoc.
      split; [done|]. split_and!.
      * intros k [=].
      * intros v m. rewrite !elem_of_app. intros [Hv|Hv];
          [apply Hw in Hv|]; set_solver.
      * intros x. rewrite !elem_of_app. intros [Hx|Hx]; eauto. set_solver.
Qed.

Lemma sync_admin_trace (configs : gmap ProxyTypes (list ProxyInbound))
    (users : list (User Settings)) h :
  (sync_admin env configs users h).1
    = (sync_users env (allowed_inbounds_of configs) users 0 h).1.
Proof.
  unfold sync_admin, mbind, M_bind, mret, M_ret.
  by destruct (sync_users _ _ _ _ _) as [h' [k|]].
Qed.

(** A run of [sync_admin]: what it adds to the trace, and the report it
    answers when it returns. *)
Lemma sync_admin_run (configs : gmap ProxyTypes (list ProxyInbound))
    (users : list (User Settings)) h :
  (sync_admin env configs users h).1 = h ++ sync_events env configs users h
  ∧ (∀ report, (sync_admin env configs users h).2 = Ok report →
       total report = Z.of_nat (length users)
       ∧ success report = Z.of_nat (length users) - unsuccessful report
       ∧ 0 ≤ unsuccessful report ≤ Z.of_nat (length users))
  ∧ (∀ u m, CrudUpdateUser u m ∈ sync_events env configs users h →
       u ∈ users ∧ m = modify_of (allowed_inbounds_of configs) u
       ∧ changed (allowed_inbounds_of configs) u = true)
  ∧ (∀ x, XrayUpdateUser x ∈ sync_events env configs users h →
       status x = active ∨ status x = on_hold).
Proof.
  unfold sync_events. rewrite sync_admin_trace.
  unfold sync_admin, mbind, M_bind, mret, M_ret.
  destruct (sync_users_trace (allowed_inbounds_of configs) users 0 h)
    as (evs & r & -> & Hk & Hw & Hp).
  simpl. rewrite drop_app_length. split_and!; [done| |done|done].
  destruct r as [k|]; [|done]. intros report [= <-]. simpl.
  specialize (Hk k eq_refl). lia.
Qed.

(** Users whose turn raises nothing leave the counter alone and are all
    written when they have a change. *)
Lemma sync_users_all_ok allowed_inbounds (users : list (User Settings))
    (unsuccessful : Z) h :
  (∀ u, u ∈ users → ∀ h', (sync_user env allowed_inbounds u h').2 = Ok tt) →
  ∃ evs : list (Event Settings),
    sync_users env allowed_inbounds users unsuccessful h = (h ++ evs, Ok unsuccessful)
    ∧ (DbRollback ∉ evs)
    ∧ (∀ u, u ∈ users → changed allowed_inbounds u = true →
         CrudUpdateUser u (modify_of allowed_inbounds u) ∈ evs).
Proof.
  revert h. induction users as [|u users IH]; intros h Hok.
  { exists []. rewrite app_nil_r. repeat split; [|intros ? []%elem_of_nil].
    by intros ?%elem_of_nil. }
  rewrite sync_users_cons.
  destruct (sync_user_trace allowed_inbounds u h) as (evs & Hh & _ & _ & Hr & Hw).
  pose proof (Hok u (list_elem_of_here _ _) h) as Hu.
  destruct (sync_user env allowed_inbounds u h) as [h' r].
  simpl in Hh, Hu, Hw. subst h' r.
  destruct (IH (h ++ evs)) as (evs' & -> & Hr' & Hw').
  { intros v Hv. apply Hok. by apply list_elem_of_further. }
  exists (evs ++ evs'). rewrite app_assoc. split; [done|]. split.
  - rewrite elem_of_app. tauto.
  - intros v [->|Hv]%elem_of_cons Hc; rewrite elem_of_app; auto.
Qed.

(** No turn has a change: nothing is called and nothing is counted. *)
Lemma sync_users_unchanged allowed_inbounds (users : list (User Settings))
    (unsuccessful : Z) h :
  (∀ u, u ∈ users → changed allowed_inbounds u = false) →
  sync_users env allowed_inbounds users unsuccessful h = (h, Ok unsuccessful).
Proof.
  induction users as [|u users IH]; intros Hu; [done|].
  rewrite sync_users_cons, sync_user_unfold. simpl.
  rewrite (Hu u) by apply list_elem_of_here.
  apply IH. intros v Hv. apply Hu. by apply list_elem_of_further.
Qed.

(** The turn of a user that the loop reaches is part of the run. *)
Lemma turn_in_run (configs : gmap ProxyTypes (list ProxyInbound))
    (before after : list (User Settings)) user h h1 (n1 : Z) :
  sync_users env (allowed_inbounds_of configs) before 0 h = (h1, Ok n1) →
  ∀ e, e ∈ turn_events env (allowed_inbounds_of configs) user h1 →
       e ∈ sync_events env configs (before ++ user :: after) h.
Proof.
  intros Hbefore e He. unfold sync_events.
  rewrite sync_admin_trace, sync_users_app, Hbefore, sync_users_cons.
  destruct (sync_users_trace (allowed_inbounds_of configs) before 0 h)
    as (pre & r & Hpre & _).
  rewrite Hbefore in Hpre. injection Hpre as -> _.
  pose proof (turn_events_trace (allowed_inbounds_of configs) user (h ++ pre)) as Hturn.
  destruct (sync_user env (allowed_inbounds_of configs) user (h ++ pre)) as [h2 r2].
  simpl in Hturn. subst h2.
  set (turn := turn_events env (allowed_inbounds_of configs) user (h ++ pre)) in *.
  assert (∀ (post : list (Event Settings)) x,
            x = ((h ++ pre) ++ turn) ++ post → e ∈ drop (length h) x) as Hin.
  { intros post x ->. rewrite <- !app_assoc, drop_app_length, !elem_of_app. auto. }
  destruct r2 as [[]|].
  - destruct (sync_users_trace (allowed_inbounds_of configs) after n1
                ((h ++ pre) ++ turn)) as (post & r3 & -> & _).
    by eapply Hin.
  - destruct (db_rollback_returns env ((h ++ pre) ++ turn)).
    + destruct (sync_users_trace (allowed_inbounds_of configs) after (n1 + 1)
                  (((h ++ pre) ++ turn) ++ [DbRollback])) as (post & r3 & -> & _).
      simpl. eapply (Hin ([DbRollback] ++ post)). by rewrite !app_assoc.
    + simpl. by eapply Hin.
Qed.

(** What the store holds after a turn, case by case. *)
Lemma held_after_unfold allowed_inbounds user h :
  held_after env allowed_inbounds user h =
    let modify := modify_of allowed_inbounds user in
    if changed allowed_inbounds user
       && UserModify_accepts env (um_inbounds modify) (um_proxies modify)
       && bool_decide (is_Some (crud_update_user env h user modify))
    then (um_inbounds modify, um_proxies modify)
    else (inbounds user, settings_map (proxies user)).
Proof.
  unfold held_after, turn_events. rewrite sync_user_unfold. cbv zeta.
  destruct (changed allowed_inbounds user); simpl; [|by rewrite drop_all].
  destruct (UserModify_accepts _ _ _); simpl; [|by rewrite drop_all].
  destruct (crud_update_user env h user (modify_of allowed_inbounds user))
    as [user'|] eqn:Hstore.
  - case_bool_decide; simpl; rewrite drop_app_length; simpl; by rewrite Hstore.
  - simpl. rewrite drop_app_length. simpl. by rewrite Hstore.
Qed.

(** After a turn that raises nothing the store holds what sync computed. *)
Lemma held_after_returned_turn allowed_inbounds user h :
  (sync_user env allowed_inbounds user h).2 = Ok tt →
  held_after env allowed_inbounds user h
    = (sync_new_inbounds allowed_inbounds user,
       sync_new_proxies (sync_new_inbounds allowed_inbounds user) user)
  ∧ (changed allowed_inbounds user = true →
     CrudUpdateUser user (modify_of allowed_inbounds user)
       ∈ turn_events env allowed_inbounds user h
     ∧ is_Some (crud_update_user env h user (modify_of allowed_inbounds user))).
Proof.
  rewrite held_after_unfold. unfold turn_events.
  rewrite sync_user_unfold. cbv zeta.
  destruct (changed allowed_inbounds user) eqn:Hc; simpl.
  2:{ intros _. split; [|done].
      destruct (unchanged_inbounds allowed_inbounds user Hc) as [<- <-]. done. }
  destruct (UserModify_accepts _ _ _); simpl; [|done].
  destruct (crud_update_user env h user (modify_of allowed_inbounds user))
    as [user'|] eqn:Hstore; [|done].
  simpl. intros _. split; [done|]. intros _.
  split; [|eauto].
  case_bool_decide; simpl; rewrite drop_app_length; apply list_elem_of_here.
Qed.

End SyncFacts.

(** ** What [sync_admin] guarantees *)

Section SyncGuarantees.

Context {Settings : Type} `{!EqDecision Settings}.
Context `{!SetOrder} `{!ProxyModels Settings}.
Variable env : SyncEnv Settings.

Implicit Types (configs : gmap ProxyTypes (list ProxyInbound)).
Implicit Types (users : list (User Settings)) (user : User Settings).
Implicit Types (h : list (Event Settings)) (protocol : ProxyTypes).

(** C1.  For every user the loop reaches: the inbounds that sync computes
    have exactly the protocols of the policy as keys; under each protocol the
    tags are, as a set, the policy's tags for that protocol; a protocol the
    user had that the policy does not name is absent.  When the user's turn
    raises nothing, these are the inbounds the store holds for the user after
    the turn: a user with a change is written, by a store update that is part
    of the run, carries this mapping and returns, and a user without a change
    already has it. *)
Theorem sync_inbounds_exactly_policy configs
    (before after : list (User Settings)) user h h1 (n1 : Z) :
  let allowed_inbounds := allowed_inbounds_of configs in
  let new_inbounds := sync_new_inbounds allowed_inbounds user in
  let users := before ++ user :: after in
  sync_users env allowed_inbounds before 0 h = (h1, Ok n1) →
  dom new_inbounds = dom configs
  ∧ (∀ protocol (policy_inbounds : list ProxyInbound),
       configs !! protocol = Some policy_inbounds →
       ∃ new_tags : list string,
         new_inbounds !! protocol = Some new_tags
         ∧ ∀ t : string, t ∈ new_tags ↔ t ∈ tag <$> policy_inbounds)
  ∧ (∀ protocol,
       is_Some (inbounds user !! protocol) → configs !! protocol = None →
       new_inbounds !! protocol = None)
  ∧ (∀ modify, CrudUpdateUser user modify ∈ sync_events env configs users h →
       um_inbounds modify = new_inbounds)
  ∧ (changed allowed_inbounds user = false → inbounds user = new_inbounds)
  ∧ ((sync_user env allowed_inbounds user h1).2 = Ok tt →
     (held_after env allowed_inbounds user h1).1 = new_inbounds
     ∧ (changed allowed_inbounds user = true →
        CrudUpdateUser user (modify_of allowed_inbounds user)
          ∈ sync_events env configs users h
        ∧ is_Some (crud_update_user env h1 user (modify_of allowed_inbounds user)))).
Proof.
  intros allowed_inbounds new_inbounds users Hbefore.
  destruct (new_inbounds_is_policy configs user) as (Hdom & Htags & Hdrop).
  destruct (sync_admin_run env configs users h) as (_ & _ & Hw & _).
  split_and!; try done.
  - intros modify (_ & -> & _)%Hw. done.
  - intros Hc. by apply unchanged_inbounds.
  - intros Hturn.
    destruct (held_after_returned_turn env allowed_inbounds user h1 Hturn)
      as [Hheld Hwritten].
    split; [by rewrite Hheld|].
    intros Hc. destruct (Hwritten Hc) as [Hevent Hstore]. split; [|done].
    by eapply turn_in_run.
Qed.

(** C2, amended.  For every user the loop reaches whose turn raises nothing,
    or whose inbounds were within the policy before the call, every
    (protocol, tag) pair of the inbounds that the store holds for the user
    after the turn is a pair of the policy supplied to the call.  Every pair
    that sync computes or writes is a pair of the policy, and a user with a
    change whose turn raises nothing is written, by a store update that is
    part of the run and returns. *)
Theorem sync_inbounds_within_policy configs
    (before after : list (User Settings)) user h h1 (n1 : Z) :
  let allowed_inbounds := allowed_inbounds_of configs in
  let users := before ++ user :: after in
  sync_users env allowed_inbounds before 0 h = (h1, Ok n1) →
  within_policy configs (sync_new_inbounds allowed_inbounds user)
  ∧ (∀ modify, CrudUpdateUser user modify ∈ sync_events env configs users h →
       within_policy configs (um_inbounds modify))
  ∧ ((sync_user env allowed_inbounds user h1).2 = Ok tt
     ∨ within_policy configs (inbounds user) →
     within_policy configs (held_after env allowed_inbounds user h1).1)
  ∧ ((sync_user env allowed_inbounds user h1).2 = Ok tt →
     changed allowed_inbounds user = true →
     CrudUpdateUser user (modify_of allowed_inbounds user)
       ∈ sync_events env configs users h
     ∧ is_Some (crud_update_user env h1 user (modify_of allowed_inbounds user))).
Proof.
  intros allowed_inbounds users Hbefore.
  destruct (sync_admin_run env configs users h) as (_ & _ & Hw & _).
  split_and!.
  - apply new_inbounds_within_policy.
  - intros modify (_ & -> & _)%Hw. apply new_inbounds_within_policy.
  - intros [Hturn|Hold].
    + destruct (held_after_returned_turn env allowed_inbounds user h1 Hturn)
        as [-> _].
      apply new_inbounds_within_policy.
    + rewrite held_after_unfold. cbv zeta.
      destruct (_ && _ && _); [apply new_inbounds_within_policy | exact Hold].
  - intros Hturn Hc.
    destruct (held_after_returned_turn env allowed_inbounds user h1 Hturn)
      as [_ Hwritten].
    destruct (Hwritten Hc) as [Hevent Hstore]. split; [|done].
    by eapply turn_in_run.
Qed.

(** C3, amended.  For every user the loop reaches whose turn raises nothing,
    or whose proxies and inbounds had the same protocols before the call, the
    settings map that the store holds for the user after the turn has exactly
    the protocols of the inbounds it holds as keys, one payload each.  The
    settings map that sync computes or writes has exactly the protocols of
    the computed inbounds as keys, and a user with a change whose turn raises
    nothing is written, by a store update that is part of the run and
    returns. *)
Theorem sync_proxies_keys_are_inbounds_keys configs
    (before after : list (User Settings)) user h h1 (n1 : Z) :
  let allowed_inbounds := allowed_inbounds_of configs in
  let new_inbounds := sync_new_inbounds allowed_inbounds user in
  let users := before ++ user :: after in
  sync_users env allowed_inbounds before 0 h = (h1, Ok n1) →
  dom (sync_new_proxies new_inbounds user) = dom new_inbounds
  ∧ (∀ modify, CrudUpdateUser user modify ∈ sync_events env configs users h →
       dom (um_proxies modify) = dom (um_inbounds modify))
  ∧ ((sync_user env allowed_inbounds user h1).2 = Ok tt
     ∨ dom (settings_map (proxies user)) = dom (inbounds user) →
     dom (held_after env allowed_inbounds user h1).2
       = dom (held_after env allowed_inbounds user h1).1)
  ∧ ((sync_user env allowed_inbounds user h1).2 = Ok tt →
     changed allowed_inbounds user = true →
     CrudUpdateUser user (modify_of allowed_inbounds user)
       ∈ sync_events env configs users h
     ∧ is_Some (crud_update_user env h1 user (modify_of allowed_inbounds user))).
Proof.
  intros allowed_inbounds new_inbounds users Hbefore.
  destruct (sync_admin_run env configs users h) as (_ & _ & Hw & _).
  split_and!.
  - apply new_proxies_keys.
  - intros modify (_ & -> & _)%Hw. apply new_proxies_keys.
  - intros [Hturn|Hold].
    + destruct (held_after_returned_turn env allowed_inbounds user h1 Hturn)
        as [-> _].
      apply new_proxies_keys.
    + rewrite held_after_unfold. cbv zeta.
      destruct (_ && _ && _); [apply new_proxies_keys | exact Hold].
  - intros Hturn Hc.
    destruct (held_after_returned_turn env allowed_inbounds user h1 Hturn)
      as [_ Hwritten].
    destruct (Hwritten Hc) as [Hevent Hstore]. split; [|done].
    by eapply turn_in_run.
Qed.

(** C9.  For every user and protocol: under a protocol of the new inbounds
    for which the user had settings, the new settings are those settings;
    under a protocol of the new inbounds for which the user had none, they
    are the default payload of that protocol; under any other protocol there
    are none.  This settings map is the one sync writes for the user. *)
Theorem sync_proxies_frame configs users h user protocol :
  let allowed_inbounds := allowed_inbounds_of configs in
  let new_inbounds := sync_new_inbounds allowed_inbounds user in
  let old_proxies := settings_map (proxies user) in
  let new_proxies := sync_new_proxies new_inbounds user in
  (is_Some (new_inbounds !! protocol) → is_Some (old_proxies !! protocol) →
     new_proxies !! protocol = old_proxies !! protocol)
  ∧ (is_Some (new_inbounds !! protocol) → old_proxies !! protocol = None →
     new_proxies !! protocol = Some (default_settings protocol))
  ∧ (new_inbounds !! protocol = None → new_proxies !! protocol = None)
  ∧ (∀ modify, CrudUpdateUser user modify ∈ sync_events env configs users h →
       um_proxies modify = new_proxies).
Proof.
  intros allowed_inbounds new_inbounds old_proxies new_proxies.
  destruct (sync_admin_run env configs users h) as (_ & _ & Hw & _).
  unfold new_proxies. rewrite sync_new_proxies_lookup. split_and!.
  - intros [ts ->] [st Hst]. fold old_proxies. by rewrite Hst.
  - intros [ts ->] Hst. fold old_proxies. by rewrite Hst.
  - intros ->. done.
  - intros modify (_ & -> & _)%Hw. done.
Qed.

(** C5.  Among N users, let the store update raise for one user, let the
    rollback that follows it return, and let the turn of every other user
    raise nothing.  Then sync reports total = N, unsuccessful = 1 and
    success = N - 1; the failed update is followed at once by the one
    rollback of the run; and every other user with a change, before and after
    the failing one, is still written. *)
Theorem sync_isolates_one_store_failure configs
    (before after : list (User Settings)) user h :
  let allowed_inbounds := allowed_inbounds_of configs in
  let modify := modify_of allowed_inbounds user in
  let N := Z.of_nat (length (before ++ user :: after)) in
  (∀ other, other ∈ before ++ after →
     ∀ h', (sync_user env allowed_inbounds other h').2 = Ok tt) →
  changed allowed_inbounds user = true →
  UserModify_accepts env (um_inbounds modify) (um_proxies modify) = true →
  (∀ h', crud_update_user env h' user modify = None) →
  (∀ h', db_rollback_returns env (h' ++ [CrudUpdateUser user modify]) = true) →
  ∃ pre post : list (Event Settings),
    sync_admin env configs (before ++ user :: after) h =
      (h ++ pre ++ [CrudUpdateUser user modify; DbRollback] ++ post,
       Ok {| total := N; success := N - 1; unsuccessful := 1 |})
    ∧ (DbRollback ∉ pre) ∧ (DbRollback ∉ post)
    ∧ (∀ other, other ∈ before → changed allowed_inbounds other = true →
         CrudUpdateUser other (modify_of allowed_inbounds other) ∈ pre)
    ∧ (∀ other, other ∈ after → changed allowed_inbounds other = true →
         CrudUpdateUser other (modify_of allowed_inbounds other) ∈ post).
Proof.
  intros allowed_inbounds modify N Hothers Hchanged Haccepts Hfails Hrollback.
  destruct (sync_users_all_ok env allowed_inbounds before 0 h)
    as (pre & Hpre & Hr1 & Hw1).
  { intros other Hin. apply Hothers. rewrite elem_of_app. by left. }
  destruct (sync_users_all_ok env allowed_inbounds after 1
              (h ++ pre ++ [CrudUpdateUser user modify; DbRollback]))
    as (post & Hpost & Hr2 & Hw2).
  { intros other Hin. apply Hothers. rewrite elem_of_app. by right. }
  exists pre, post. split_and!; try done.
  unfold sync_admin, mbind, M_bind, mret, M_ret.
  fold allowed_inbounds. rewrite sync_users_app, Hpre, sync_users_cons.
  rewrite sync_user_unfold. cbv zeta. fold modify.
  rewrite Hchanged, Haccepts, Hfails, Hrollback.
  replace (((h ++ pre) ++ [CrudUpdateUser user modify]) ++ [DbRollback])
    with (h ++ pre ++ [CrudUpdateUser user modify; DbRollback])
    by (by rewrite <- !app_assoc).
  change (0 + 1) with 1. rewrite Hpost. by rewrite <- !app_assoc.
Qed.

(** C7.  In the turn of one user the node push is called for [x] exactly
    when the user has a change, the patch is accepted, the store update
    returns [x], and the status of [x] is active or on_hold.  Hence in a
    whole run every pushed user is active or on_hold, and a user with status
    disabled is never pushed. *)
Theorem push_iff_persisted_and_live :
  (∀ (allowed_inbounds : gmap ProxyTypes (list string)) user h x,
     let modify := modify_of allowed_inbounds user in
     XrayUpdateUser x ∈ drop (length h) (sync_user env allowed_inbounds user h).1
     ↔ changed allowed_inbounds user = true
       ∧ UserModify_accepts env (um_inbounds modify) (um_proxies modify) = true
       ∧ crud_update_user env h user modify = Some x
       ∧ (status x = active ∨ status x = on_hold))
  ∧ (∀ configs users h x,
       XrayUpdateUser x ∈ sync_events env configs users h →
       status x = active ∨ status x = on_hold)
  ∧ (∀ configs users h x,
       status x = disabled → XrayUpdateUser x ∉ sync_events env configs users h).
Proof.
  assert (∀ configs users h x,
       XrayUpdateUser x ∈ sync_events env configs users h →
       status x = active ∨ status x = on_hold) as Hrun.
  { intros configs users h x.
    destruct (sync_admin_run env configs users h) as (_ & _ & _ & Hp). apply Hp. }
  split_and!; [|done|].
  - intros allowed_inbounds user h x modify.
    rewrite sync_user_unfold. cbv zeta. fold modify.
    destruct (changed allowed_inbounds user).
    2:{ simpl. rewrite drop_all. split; [by intros ?%elem_of_nil | by intros []]. }
    destruct (UserModify_accepts _ _ _).
    2:{ simpl. rewrite drop_all. split; [by intros ?%elem_of_nil | by intros (?&?&?)]. }
    destruct (crud_update_user _ _ _ _) as [user'|].
    2:{ simpl. rewrite drop_app_length.
        split; [by intros [=]%list_elem_of_singleton | by intros (?&?&?&?)]. }
    case_bool_decide as Hs; simpl; rewrite drop_app_length.
    + split.
      * intros Hx. assert (x = user') as -> by set_solver.
        split_and!; try done. set_solver.
      * intros (_ & _ & [= ->] & _). set_solver.
    + split.
      * by intros [=]%list_elem_of_singleton.
      * intros (_ & _ & [= ->] & Hx). destruct Hs. set_solver.
  - intros configs users h x Hd Hx. apply Hrun in Hx. rewrite Hd in Hx.
    by destruct Hx.
Qed.

(** C10.  The handler catches whatever the try body raises: the turn ends
    with a rollback and, when the rollback returns, the counter grows by one
    and the loop goes on; a rollback that raises ends the loop with its
    exception, and a run whose rollbacks all return never raises.  In
    particular, when the store update has returned the updated user and the
    node push then raises, the trace reads store update, node push, rollback,
    and the user is counted as unsuccessful although the store update had
    succeeded. *)
Theorem push_failure_after_persist_is_counted
    (allowed_inbounds : gmap ProxyTypes (list string)) user users
    (unsuccessful : Z) h :
  let modify := modify_of allowed_inbounds user in
  ((sync_user env allowed_inbounds user h).2 = Raise →
     (db_rollback_returns env (sync_user env allowed_inbounds user h).1 = true →
      sync_users env allowed_inbounds (user :: users) unsuccessful h =
        sync_users env allowed_inbounds users (unsuccessful + 1)
          ((sync_user env allowed_inbounds user h).1 ++ [DbRollback]))
     ∧ (db_rollback_returns env (sync_user env allowed_inbounds user h).1 = false →
        sync_users env allowed_inbounds (user :: users) unsuccessful h =
          ((sync_user env allowed_inbounds user h).1 ++ [DbRollback], Raise)))
  ∧ ((∀ h', db_rollback_returns env h' = true) →
     ∃ h' k, sync_users env allowed_inbounds (user :: users) unsuccessful h
             = (h', Ok k))
  ∧ (∀ persisted : User Settings,
       changed allowed_inbounds user = true →
       UserModify_accepts env (um_inbounds modify) (um_proxies modify) = true →
       crud_update_user env h user modify = Some persisted →
       status persisted = active ∨ status persisted = on_hold →
       xray_operations_update_user env
         (h ++ [CrudUpdateUser user modify]) persisted = false →
       db_rollback_returns env
         (h ++ [CrudUpdateUser user modify; XrayUpdateUser persisted]) = true →
       sync_users env allowed_inbounds (user :: users) unsuccessful h =
         sync_users env allowed_inbounds users (unsuccessful + 1)
           (h ++ [CrudUpdateUser user modify; XrayUpdateUser persisted; DbRollback])).
Proof.
  intros modify. split_and!.
  - intros Hr. rewrite sync_users_cons.
    destruct (sync_user env allowed_inbounds user h) as [h' r].
    simpl in *. subst r. split; by intros ->.
  - intros Hrollback.
    assert (∀ (us : list (User Settings)) n h0,
              ∃ h' k, sync_users env allowed_inbounds us n h0 = (h', Ok k)) as Hloop.
    { induction us as [|u us IH]; intros n h0; [by eexists _, _|].
      rewrite sync_users_cons.
      destruct (sync_user env allowed_inbounds u h0) as [h' [[]|]]; [apply IH|].
      rewrite Hrollback. apply IH. }
    apply Hloop.
  - intros persisted Hc Ha Hs Hst Hx Hrollback.
    rewrite sync_users_cons, sync_user_unfold. cbv zeta. fold modify.
    rewrite Hc, Ha, Hs, Hx.
    rewrite bool_decide_eq_true_2 by set_solver.
    simpl. rewrite Hrollback. by rewrite <- app_assoc.
Qed.

End SyncGuarantees.

(** ** Facts about the node sweep *)

Section BulkFacts.

Context {Admin Config : Type}.
Variable env : FleetEnv Admin Config.

Implicit Types (w : Fleet Admin Config) (l items : list (Z * Node)).
Implicit Types (cfg : Config) (node_id : Z).

Lemma nodes_get_set_ne node_id other node' l :
  other ≠ node_id → nodes_get other (nodes_set node_id node' l) = nodes_get other l.
Proof.
  intros Hne. induction l as [|[i n] l IH]; [done|]. simpl.
  destruct (decide (i = node_id)) as [->|]; simpl.
  - by rewrite !decide_False by done.
  - destruct (decide (i = other)); [done|apply IH].
Qed.

Lemma nodes_get_elem node_id node l :
  NoDup l.*1 → (node_id, node) ∈ l → nodes_get node_id l = Some node.
Proof.
  induction l as [|[i n] l IH]; simpl; intros Hnd Hin.
  - by apply elem_of_nil in Hin.
  - apply NoDup_cons in Hnd as [Hi Hnd].
    apply elem_of_cons in Hin as [[= -> ->]|Hin].
    + by rewrite decide_True.
    + rewrite decide_False; [by apply IH|].
      intros ->. apply Hi. apply list_elem_of_fmap. by exists (node_id, node).
Qed.

(** A node restart returns, writes to the journal only, and leaves every
    other node object alone. *)
Lemma restart_node_returns node_id cfg w :
  ∃ (w' : Fleet Admin Config) (failure : list (FleetEvent Admin Config)),
    restart_node env node_id cfg w = (w', Ok tt)
    ∧ journal w' = journal w ++ RestartNode node_id cfg :: failure
    ∧ restarted_nodes failure = []
    ∧ Forall (sweep_event env cfg) failure
    ∧ (∀ other, other ≠ node_id →
         nodes_get other (nodes w') = nodes_get other (nodes w)).
Proof.
  unfold restart_node. simpl.
  destruct (nodes_get node_id (nodes w)) as [node|].
  - destruct (node_restart env _ node_id node cfg) as [node' ok] eqn:Hanswer.
    destruct ok; simpl.
    + eexists _, []. split_and!; [done|done|done|constructor|].
      intros other Hne. simpl. by apply nodes_get_set_ne.
    + eexists _, [NodeFailure node_id]. split_and!; [done| |done| |].
      * simpl. by rewrite <- app_assoc.
      * repeat constructor. simpl. eexists _, node. by rewrite Hanswer.
      * intros other Hne. simpl. by apply nodes_get_set_ne.
  - eexists _, []. split_and!; [done|done|done|constructor|done].
Qed.

(** The sweep over a copy of the registry restarts the nodes that were
    connected when the copy was taken, once each and in order, whatever the
    nodes answer. *)
Lemma restart_connected_nodes_sweep items cfg w :
  NoDup items.*1 →
  (∀ node_id node, (node_id, node) ∈ items →
     nodes_get node_id (nodes w) = Some node) →
  ∃ (w' : Fleet Admin Config) (sweep : list (FleetEvent Admin Config)),
    restart_connected_nodes env items cfg w = (w', Ok tt)
    ∧ journal w' = journal w ++ sweep
    ∧ restarted_nodes sweep = (λ node_id, (node_id, cfg)) <$> connected_ids items
    ∧ Forall (sweep_event env cfg) sweep.
Proof.
  revert w. induction items as [|[node_id node] items IH]; intros w Hnd Hlive.
  { exists w, []. by rewrite app_nil_r. }
  simpl in Hnd. apply NoDup_cons in Hnd as [Hfresh Hnd].
  simpl. unfold mbind, M_bind, node_connected.
  rewrite (Hlive node_id node) by apply list_elem_of_here. simpl.
  assert (∀ w1 : Fleet Admin Config,
            (∀ other, other ≠ node_id →
               nodes_get other (nodes w1) = nodes_get other (nodes w)) →
            ∀ i n, (i, n) ∈ items → nodes_get i (nodes w1) = Some n) as Hkeep.
  { intros w1 Hsame i n Hin. rewrite Hsame.
    - apply Hlive. by apply list_elem_of_further.
    - intros ->. apply Hfresh. apply list_elem_of_fmap. by exists (node_id, n). }
  unfold connected_ids. destruct (connected node) eqn:Hc.
  - destruct (restart_node_returns node_id cfg w)
      as (w1 & failure & -> & Hj & Hnone & Hf & Hsame).
    destruct (IH w1 Hnd (Hkeep w1 Hsame)) as (w' & sweep & -> & Hj' & Hr & Hev).
    exists w', (RestartNode node_id cfg :: failure ++ sweep).
    split_and!; [done| | |].
    + rewrite Hj', Hj. by rewrite <- app_assoc.
    + rewrite filter_cons_True by done. simpl. f_equal.
      unfold restarted_nodes in *. by rewrite omap_app, Hnone, Hr.
    + constructor; [done|]. apply Forall_app. by split.
  - unfold mret, M_ret.
    destruct (IH w Hnd (Hkeep w (λ _ _, eq_refl))) as (w' & sweep & -> & Hj' & Hr & Hev).
    exists w', sweep. split_and!; try done.
    rewrite filter_cons_False; [done|]. simpl. by rewrite Hc.
Qed.

Lemma M_bind_unfold {S A B : Type} (c : M S A) (k : A → M S B) (s : S) :
  (c ≫= k) s =
    match c s with
    | (s', Ok a) => k a s'
    | (s', Raise) => (s', Raise)
    end.
Proof. done. Qed.

(** Lines 148-151 and 163-166: the sweep and the answer. *)
Lemma sweep_and_answer cfg (detail : string) w :
  NoDup (nodes w).*1 →
  ∃ (w' : Fleet Admin Config) (sweep : list (FleetEvent Admin Config)),
    (xray_nodes_items ≫= λ items,
       restart_connected_nodes env items cfg ≫= λ _, mret detail) w
      = (w', Ok detail)
    ∧ journal w' = journal w ++ sweep
    ∧ restarted_nodes sweep = (λ node_id, (node_id, cfg)) <$> connected_ids (nodes w)
    ∧ Forall (sweep_event env cfg) sweep.
Proof.
  intros Hnd. rewrite M_bind_unfold. unfold xray_nodes_items.
  rewrite M_bind_unfold.
  destruct (restart_connected_nodes_sweep (nodes w) cfg w Hnd)
    as (w' & sweep & -> & Hj & Hr & Hev).
  { intros node_id node. by apply nodes_get_elem. }
  by exists w', sweep.
Qed.

Lemma disable_all_active_users_run (dbadmin : Admin) cfg w :
  NoDup (nodes w).*1 →
  crud_disable_all_active_users env (journal w) dbadmin = true →
  xray_config_include_db_users env
    (journal w ++ [CrudDisableAllActiveUsers dbadmin]) = Some cfg →
  xray_core_restart env
    (journal w ++ [CrudDisableAllActiveUsers dbadmin; IncludeDbUsers]) cfg = true →
  ∃ (w' : Fleet Admin Config) (sweep : list (FleetEvent Admin Config)),
    disable_all_active_users env dbadmin w
      = (w', Ok "Users successfully disabled"%string)
    ∧ journal w' =
        journal w ++ [CrudDisableAllActiveUsers dbadmin; IncludeDbUsers;
                      CoreRestart cfg] ++ sweep
    ∧ restarted_nodes sweep =
        (λ node_id, (node_id, cfg)) <$> connected_ids (nodes w)
    ∧ Forall (sweep_event env cfg) sweep.
Proof.
  intros Hnd Hcrud Hcfg Hcore. unfold disable_all_active_users.
  rewrite M_bind_unfold. unfold call_crud_disable_all_active_users. rewrite Hcrud.
  rewrite M_bind_unfold. unfold call_include_db_users. simpl journal. rewrite Hcfg.
  rewrite M_bind_unfold. unfold call_core_restart. simpl journal.
  rewrite <- app_assoc. simpl app. rewrite Hcore.
  edestruct (sweep_and_answer cfg "Users successfully disabled") as
    (w' & sweep & -> & Hj & Hr & Hev); [|exists w', sweep; split_and!; try done].
  - done.
  - rewrite Hj. simpl. by rewrite <- !app_assoc.
Qed.

Lemma activate_all_disabled_users_run (dbadmin : Admin) cfg w :
  NoDup (nodes w).*1 →
  crud_activate_all_disabled_users env (journal w) dbadmin = true →
  xray_config_include_db_users env
    (journal w ++ [CrudActivateAllDisabledUsers dbadmin]) = Some cfg →
  xray_core_restart env
    (journal w ++ [CrudActivateAllDisabledUsers dbadmin; IncludeDbUsers]) cfg = true →
  ∃ (w' : Fleet Admin Config) (sweep : list (FleetEvent Admin Config)),
    activate_all_disabled_users env dbadmin w
      = (w', Ok "Users successfully activated"%string)
    ∧ journal w' =
        journal w ++ [CrudActivateAllDisabledUsers dbadmin; IncludeDbUsers;
                      CoreRestart cfg] ++ sweep
    ∧ restarted_nodes sweep =
        (λ node_id, (node_id, cfg)) <$> connected_ids (nodes w)
    ∧ Forall (sweep_event env cfg) sweep.
Proof.
  intros Hnd Hcrud Hcfg Hcore. unfold activate_all_disabled_users.
  rewrite M_bind_unfold. unfold call_crud_activate_all_disabled_users. rewrite Hcrud.
  rewrite M_bind_unfold. unfold call_include_db_users. simpl journal. rewrite Hcfg.
  rewrite M_bind_unfold. unfold call_core_restart. simpl journal.
  rewrite <- app_assoc. simpl app. rewrite Hcore.
  edestruct (sweep_and_answer cfg "Users successfully activated") as
    (w' & sweep & -> & Hj & Hr & Hev); [|exists w', sweep; split_and!; try done].
  - done.
  - rewrite Hj. simpl. by rewrite <- !app_assoc.
Qed.

Lemma restarted_nodes_elem node_id cfg (j : list (FleetEvent Admin Config)) :
  (node_id, cfg) ∈ restarted_nodes j → RestartNode node_id cfg ∈ j.
Proof.
  unfold restarted_nodes. rewrite list_elem_of_omap.
  intros (e & He & Heq). by destruct e; simplify_eq.
Qed.

Lemma connected_ids_elem node_id (node : Node) l :
  (node_id, node) ∈ l → connected node = true → node_id ∈ connected_ids l.
Proof.
  intros Hin Hc. unfold connected_ids. apply list_elem_of_fmap.
  exists (node_id, node). split; [done|]. by apply list_elem_of_filter.
Qed.

(** C8.  Each bulk status operation calls, in this order: the bulk status
    change of the store; the builder of the startup configuration; the
    restart of the local core with that configuration; and then a restart,
    with the same configuration, of exactly the nodes whose [connected] flag
    is set in the registry when the sweep starts, in registry order.  No
    step looks at what the store changed, and no other node is touched. *)
Theorem bulk_status_rebuilds_and_restarts (dbadmin : Admin) cfg w :
  NoDup (nodes w).*1 →
  (crud_disable_all_active_users env (journal w) dbadmin = true →
   xray_config_include_db_users env
     (journal w ++ [CrudDisableAllActiveUsers dbadmin]) = Some cfg →
   xray_core_restart env
     (journal w ++ [CrudDisableAllActiveUsers dbadmin; IncludeDbUsers]) cfg = true →
   ∃ (w' : Fleet Admin Config) (sweep : list (FleetEvent Admin Config)),
     disable_all_active_users env dbadmin w
       = (w', Ok "Users successfully disabled"%string)
     ∧ journal w' =
         journal w ++ [CrudDisableAllActiveUsers dbadmin; IncludeDbUsers;
                       CoreRestart cfg] ++ sweep
     ∧ restarted_nodes sweep =
         (λ node_id, (node_id, cfg)) <$> connected_ids (nodes w)
     ∧ Forall (sweep_event env cfg) sweep)
  ∧ (crud_activate_all_disabled_users env (journal w) dbadmin = true →
     xray_config_include_db_users env
       (journal w ++ [CrudActivateAllDisabledUsers dbadmin]) = Some cfg →
     xray_core_restart env
       (journal w ++ [CrudActivateAllDisabledUsers dbadmin; IncludeDbUsers]) cfg = true →
     ∃ (w' : Fleet Admin Config) (sweep : list (FleetEvent Admin Config)),
       activate_all_disabled_users env dbadmin w
         = (w', Ok "Users successfully activated"%string)
       ∧ journal w' =
           journal w ++ [CrudActivateAllDisabledUsers dbadmin; IncludeDbUsers;
                         CoreRestart cfg] ++ sweep
       ∧ restarted_nodes sweep =
           (λ node_id, (node_id, cfg)) <$> connected_ids (nodes w)
       ∧ Forall (sweep_event env cfg) sweep).
Proof.
  intros Hnd. split; intros Hcrud Hcfg Hcore.
  - by apply disable_all_active_users_run.
  - by apply activate_all_disabled_users_run.
Qed.

(** C6.  In a bulk status operation a local core that fails to restart ends
    the request with that error, and no node is restarted.  When the local
    core does restart, the request succeeds whatever the individual nodes
    answer: every node connected when the sweep starts is asked to restart,
    also after another node has failed, and a failure is recorded only for a
    node that the transport could not restart. *)
Theorem core_failure_fatal_node_failure_skipped (dbadmin : Admin) cfg w :
  crud_disable_all_active_users env (journal w) dbadmin = true →
  xray_config_include_db_users env
    (journal w ++ [CrudDisableAllActiveUsers dbadmin]) = Some cfg →
  (xray_core_restart env
     (journal w ++ [CrudDisableAllActiveUsers dbadmin; IncludeDbUsers]) cfg = false →
   ∃ w' : Fleet Admin Config,
     disable_all_active_users env dbadmin w = (w', Raise)
     ∧ journal w' =
         journal w ++ [CrudDisableAllActiveUsers dbadmin; IncludeDbUsers;
                       CoreRestart cfg]
     ∧ nodes w' = nodes w)
  ∧ (xray_core_restart env
       (journal w ++ [CrudDisableAllActiveUsers dbadmin; IncludeDbUsers]) cfg = true →
     NoDup (nodes w).*1 →
     ∃ w' : Fleet Admin Config,
       disable_all_active_users env dbadmin w
         = (w', Ok "Users successfully disabled"%string)
       ∧ CoreRestart cfg ∈ journal w'
       ∧ (∀ node_id (node : Node),
            (node_id, node) ∈ nodes w → connected node = true →
            RestartNode node_id cfg ∈ journal w')
       ∧ (∀ node_id,
            NodeFailure node_id ∈ journal w' →
            NodeFailure node_id ∈ journal w
            ∨ ∃ (j : list (FleetEvent Admin Config)) (node : Node),
                (node_restart env j node_id node cfg).2 = false)).
Proof.
  intros Hcrud Hcfg. split.
  - intros Hcore. unfold disable_all_active_users.
    rewrite M_bind_unfold. unfold call_crud_disable_all_active_users. rewrite Hcrud.
    rewrite M_bind_unfold. unfold call_include_db_users. simpl journal. rewrite Hcfg.
    rewrite M_bind_unfold. unfold call_core_restart. simpl journal.
    rewrite <- app_assoc. simpl app. rewrite Hcore.
    eexists. split_and!; [done| |done].
    simpl. by rewrite <- !app_assoc.
  - intros Hcore Hnd.
    destruct (disable_all_active_users_run dbadmin cfg w Hnd Hcrud Hcfg Hcore)
      as (w' & sweep & Hrun & Hj & Hr & Hev).
    exists w'. split_and!; [done| | |].
    + rewrite Hj. set_solver.
    + intros node_id node Hin Hc. rewrite Hj, !elem_of_app. right. right.
      apply restarted_nodes_elem. rewrite Hr. apply list_elem_of_fmap.
      exists node_id. split; [done|]. by eapply connected_ids_elem.
    + intros node_id. rewrite Hj, !elem_of_app.
      intros [Hold|[Hcalls|Hsweep]]; [by left|set_solver|right].
      rewrite Forall_forall in Hev. apply (Hev _ Hsweep).
Qed.

End BulkFacts.



(** ** The theorems at concrete runs *)

Import Examples.

#[local] Existing Instance last_seen_order.
#[local] Existing Instance models.

Lemma sync_inbounds_exactly_policy_witness :
  let allowed_inbounds := allowed_inbounds_of policy in
  let h1 := [CrudUpdateUser bob (modify_of allowed_inbounds bob)] in
  (∃ new_tags : list string,
     sync_new_inbounds allowed_inbounds alice !! VMess = Some new_tags
     ∧ ∀ t : string, t ∈ new_tags ↔ t ∈ ["tag1"; "tag2"]%string)
  ∧ sync_new_inbounds allowed_inbounds alice !! Trojan = None
  ∧ (held_after faithful_env allowed_inbounds alice h1).1
      = sync_new_inbounds allowed_inbounds alice
  ∧ CrudUpdateUser alice (modify_of allowed_inbounds alice)
      ∈ sync_events faithful_env policy [bob; alice; carol] [].
Proof.
  intros allowed_inbounds h1.
  destruct (sync_inbounds_exactly_policy faithful_env policy [bob] [carol] alice
              [] h1 0) as (_ & Htags & Hdrop & _ & _ & Hturn).
  - vm_compute. reflexivity.
  - destruct Hturn as [Hheld Hwritten]; [vm_compute; reflexivity|].
    split; [|split; [|split]].
    + apply (Htags VMess [ {| tag := "tag1" |}; {| tag := "tag2" |} ]).
      reflexivity.
    + apply Hdrop; [|reflexivity]. exists ["tagX"%string]. reflexivity.
    + exact Hheld.
    + apply Hwritten. vm_compute. reflexivity.
Defined.

(** C2 as stated fails.  The store refuses the update of the only user; sync
    answers its report, with the user counted as unsuccessful, and the user
    still holds the pair (Trojan, tagX), which is no pair of the policy. *)
Lemma refused_user_keeps_outside_pair :
  let allowed_inbounds := allowed_inbounds_of policy in
  sync_admin refusing_env policy [alice] []
    = ([CrudUpdateUser alice (modify_of allowed_inbounds alice); DbRollback],
       Ok {| total := 1; success := 0; unsuccessful := 1 |})
  ∧ (held_after refusing_env allowed_inbounds alice []).1 !! Trojan
      = Some ["tagX"%string]
  ∧ ¬ in_policy policy Trojan "tagX"
  ∧ ¬ within_policy policy (held_after refusing_env allowed_inbounds alice []).1.
Proof.
  intros allowed_inbounds.
  assert (¬ in_policy policy Trojan "tagX") as Hout.
  { intros (policy_inbounds & Hp & _). vm_compute in Hp. discriminate. }
  split; [vm_compute; reflexivity|]. split; [vm_compute; reflexivity|].
  split; [exact Hout|].
  intros Hwithin. apply Hout.
  apply (Hwithin Trojan ["tagX"%string] "tagX"%string).
  - vm_compute. reflexivity.
  - apply list_elem_of_here.
Qed.

Lemma sync_inbounds_within_policy_witness :
  let allowed_inbounds := allowed_inbounds_of policy in
  let h1 := [CrudUpdateUser bob (modify_of allowed_inbounds bob)] in
  within_policy policy (held_after faithful_env allowed_inbounds alice h1).1
  ∧ within_policy policy (held_after refusing_env allowed_inbounds alice_synced []).1
  ∧ CrudUpdateUser alice (modify_of allowed_inbounds alice)
      ∈ sync_events faithful_env policy [bob; alice; carol] [].
Proof.
  intros allowed_inbounds h1.
  destruct (sync_inbounds_within_policy faithful_env policy [bob] [carol] alice
              [] h1 0) as (_ & _ & Hheld & Hwritten).
  - vm_compute. reflexivity.
  - split; [|split].
    + apply Hheld. left. vm_compute. reflexivity.
    + apply (proj1 (proj2 (proj2
               (sync_inbounds_within_policy refusing_env policy [] []
                  alice_synced [] [] 0 eq_refl)))).
      right. intros protocol tags t Htags Ht.
      exists [ {| tag := "tag1" |}; {| tag := "tag2" |} ].
      destruct protocol; vm_compute in Htags; try discriminate.
      injection Htags as <-. split; [reflexivity | exact Ht].
    + apply Hwritten; vm_compute; reflexivity.
Defined.

(** C3 as stated fails.  The user has an inbound under VMess and no proxy
    row; the store refuses the update; sync answers its report, with the user
    counted as unsuccessful, and the user still has an inbound without a
    settings payload. *)
Lemma refused_user_keeps_orphan_inbound :
  let allowed_inbounds := allowed_inbounds_of policy in
  sync_admin refusing_env policy [erin] []
    = ([CrudUpdateUser erin (modify_of allowed_inbounds erin); DbRollback],
       Ok {| total := 1; success := 0; unsuccessful := 1 |})
  ∧ (held_after refusing_env allowed_inbounds erin []).1 !! VMess
      = Some ["tag1"%string]
  ∧ (held_after refusing_env allowed_inbounds erin []).2 !! VMess = None
  ∧ dom (held_after refusing_env allowed_inbounds erin []).2
      ≠ dom (held_after refusing_env allowed_inbounds erin []).1.
Proof.
  intros allowed_inbounds.
  assert ((held_after refusing_env allowed_inbounds erin []).1 !! VMess
            = Some ["tag1"%string]) as Hin by (vm_compute; reflexivity).
  assert ((held_after refusing_env allowed_inbounds erin []).2 !! VMess = None)
    as Hout by (vm_compute; reflexivity).
  split; [vm_compute; reflexivity|]. split; [exact Hin|]. split; [exact Hout|].
  intros Hdom.
  assert (VMess ∈ dom (held_after refusing_env allowed_inbounds erin []).2) as Hv.
  { rewrite Hdom. apply elem_of_dom. rewrite Hin. eauto. }
  apply elem_of_dom in Hv. rewrite Hout in Hv. by destruct Hv.
Qed.

Lemma sync_proxies_keys_are_inbounds_keys_witness :
  let allowed_inbounds := allowed_inbounds_of policy in
  let h1 := [CrudUpdateUser bob (modify_of allowed_inbounds bob)] in
  dom (held_after faithful_env allowed_inbounds alice h1).2
    = dom (held_after faithful_env allowed_inbounds alice h1).1
  ∧ dom (held_after refusing_env allowed_inbounds alice_synced []).2
    = dom (held_after refusing_env allowed_inbounds alice_synced []).1
  ∧ CrudUpdateUser alice (modify_of allowed_inbounds alice)
      ∈ sync_events faithful_env policy [bob; alice; carol] [].
Proof.
  intros allowed_inbounds h1.
  destruct (sync_proxies_keys_are_inbounds_keys faithful_env policy [bob] [carol]
              alice [] h1 0) as (_ & _ & Hheld & Hwritten).
  - vm_compute. reflexivity.
  - split; [|split].
    + apply Hheld. left. vm_compute. reflexivity.
    + apply (proj1 (proj2 (proj2
               (sync_proxies_keys_are_inbounds_keys refusing_env policy [] []
                  alice_synced [] [] 0 eq_refl)))).
      right. vm_compute. reflexivity.
    + apply Hwritten; vm_compute; reflexivity.
Defined.

Lemma sync_proxies_frame_witness :
  sync_new_proxies (sync_new_inbounds (allowed_inbounds_of policy) alice) alice !! VMess
    = Some "vmess-alice"%string
  ∧ sync_new_proxies (sync_new_inbounds (allowed_inbounds_of policy) bob) bob !! VMess
    = Some (default_settings VMess)
  ∧ sync_new_proxies (sync_new_inbounds (allowed_inbounds_of policy) alice) alice !! Trojan
    = None
  ∧ um_proxies (modify_of (allowed_inbounds_of policy) alice)
    = sync_new_proxies (sync_new_inbounds (allowed_inbounds_of policy) alice) alice.
Proof.
  split; [|split; [|split]].
  - apply (proj1 (sync_proxies_frame faithful_env policy [alice] [] alice VMess)).
    + exists ["tag1"; "tag2"]%string. reflexivity.
    + exists "vmess-alice"%string. reflexivity.
  - apply (proj1 (proj2 (sync_proxies_frame faithful_env policy [bob] [] bob VMess))).
    + exists ["tag1"; "tag2"]%string. reflexivity.
    + reflexivity.
  - apply (proj1 (proj2 (proj2
             (sync_proxies_frame faithful_env policy [alice] [] alice Trojan)))).
    reflexivity.
  - apply (proj2 (proj2 (proj2
             (sync_proxies_frame faithful_env policy [alice] [] alice VMess)))).
    vm_compute. apply list_elem_of_here.
Defined.

(** C4: a second call writes again.  First part: the policy lists two
    inbounds, none twice, the user starts without inbounds and the store keeps
    what it is given; the first call stores the tags in the order of the
    policy, the second call lists the set of the stored and the policy's tags,
    here tag2 before tag1, finds the lists different and updates the store
    again, with unsuccessful = 0.  Second part: the policy lists one inbound
    twice; the first call stores the tag twice and the second call, which
    lists a set, stores it once. *)
Lemma second_sync_writes_again :
  (let sync := @sync_admin string _ reversed_order models faithful_env in
   let stored :=
     {| inbounds := {[ VMess := ["tag1"; "tag2"]%string ]};
        proxies := [ {| type := VMess; settings := "vmess-default"%string |} ];
        status := active |} in
   let first := sync policy [dave] [] in
   first = ([CrudUpdateUser dave
               {| um_inbounds := {[ VMess := ["tag1"; "tag2"]%string ]};
                  um_proxies := {[ VMess := "vmess-default"%string ]} |};
             XrayUpdateUser stored],
            Ok {| total := 1; success := 1; unsuccessful := 0 |})
   ∧ sync policy [stored] first.1
       = (first.1 ++
            [CrudUpdateUser stored
               {| um_inbounds := {[ VMess := ["tag2"; "tag1"]%string ]};
                  um_proxies := {[ VMess := "vmess-default"%string ]} |};
             XrayUpdateUser
               {| inbounds := {[ VMess := ["tag2"; "tag1"]%string ]};
                  proxies := proxies stored;
                  status := active |}],
          Ok {| total := 1; success := 1; unsuccessful := 0 |}))
  ∧ (let sync := @sync_admin string _ last_seen_order models faithful_env in
     let first := sync twice_policy [dave] [] in
     first = ([CrudUpdateUser dave
                 {| um_inbounds := {[ VMess := ["a"; "a"]%string ]};
                    um_proxies := {[ VMess := "vmess-default"%string ]} |};
               XrayUpdateUser dave_synced],
              Ok {| total := 1; success := 1; unsuccessful := 0 |})
     ∧ sync twice_policy [dave_synced] first.1
         = (first.1 ++
              [CrudUpdateUser dave_synced
                 {| um_inbounds := {[ VMess := ["a"%string] ]};
                    um_proxies := {[ VMess := "vmess-default"%string ]} |};
               XrayUpdateUser
                 {| inbounds := {[ VMess := ["a"%string] ]};
                    proxies := proxies dave_synced;
                    status := active |}],
            Ok {| total := 1; success := 1; unsuccessful := 0 |})).
Proof. vm_compute. repeat split. Qed.

(** Whatever the order in which a set is listed, the stored list of the first
    part differs from the list the second call computes. *)
Lemma duplicate_tags_are_rewritten `{!SetOrder} :
  changed (allowed_inbounds_of twice_policy) dave_synced = true.
Proof.
  unfold changed. cbv zeta. apply orb_true_iff. left.
  apply bool_decide_eq_true. intros Heq.
  pose proof (f_equal (λ m : gmap ProxyTypes (list string), m !! VMess) Heq) as Hv.
  simpl in Hv. rewrite sync_new_inbounds_lookup in Hv.
  change (allowed_inbounds_of twice_policy !! VMess) with (Some ["a"; "a"]%string) in Hv.
  change (inbounds dave_synced !! VMess) with (Some ["a"; "a"]%string) in Hv.
  destruct (carried_inbounds _ _ !! VMess) as [existing_tags|] eqn:Hcarried.
  - injection Hv as Hv.
    pose proof (list_set_union_NoDup existing_tags ["a"; "a"]%string) as Hnd.
    rewrite Hv in Hnd. apply NoDup_cons in Hnd as [Hnd _]. apply Hnd, list_elem_of_here.
  - rewrite carried_inbounds_lookup in Hcarried. vm_compute in Hcarried. done.
Qed.

Lemma sync_isolates_one_store_failure_witness :
  ∃ pre post : list (Event string),
    sync_admin picky_env policy [alice; carol; bob] [] =
      (pre ++ [CrudUpdateUser carol (modify_of (allowed_inbounds_of policy) carol);
               DbRollback] ++ post,
       Ok {| total := 3; success := 2; unsuccessful := 1 |})
    ∧ CrudUpdateUser alice (modify_of (allowed_inbounds_of policy) alice) ∈ pre
    ∧ CrudUpdateUser bob (modify_of (allowed_inbounds_of policy) bob) ∈ post.
Proof.
  destruct (sync_isolates_one_store_failure picky_env policy [alice] [bob] carol [])
    as (pre & post & Hrun & _ & _ & Hpre & Hpost).
  - intros other Hin h'.
    apply elem_of_app in Hin as [Hin|Hin]; apply list_elem_of_singleton in Hin;
      subst other; vm_compute; reflexivity.
  - vm_compute. reflexivity.
  - reflexivity.
  - intros h'. reflexivity.
  - intros h'. reflexivity.
  - exists pre, post. split; [exact Hrun|]. split.
    + apply Hpre; [apply list_elem_of_here | vm_compute; reflexivity].
    + apply Hpost; [apply list_elem_of_here | vm_compute; reflexivity].
Defined.

Lemma push_iff_persisted_and_live_witness :
  XrayUpdateUser alice_synced
    ∈ drop 0 (sync_user faithful_env (allowed_inbounds_of policy) alice []).1
  ∧ XrayUpdateUser (store_patch bob (modify_of (allowed_inbounds_of policy) bob))
      ∉ sync_events faithful_env policy [alice; bob] [].
Proof.
  split.
  - apply (proj1 (push_iff_persisted_and_live faithful_env)
             (allowed_inbounds_of policy) alice [] alice_synced).
    split; [vm_compute; reflexivity|]. split; [reflexivity|].
    split; [vm_compute; reflexivity|]. left. reflexivity.
  - apply (proj2 (proj2 (push_iff_persisted_and_live faithful_env))). reflexivity.
Defined.

Lemma push_failure_after_persist_is_counted_witness :
  let allowed_inbounds := allowed_inbounds_of policy in
  sync_users unreachable_env allowed_inbounds [alice] 0 [] =
    ([CrudUpdateUser alice (modify_of allowed_inbounds alice);
      XrayUpdateUser alice_synced; DbRollback], Ok 1)
  ∧ sync_users stuck_env allowed_inbounds [alice; bob] 0 [] =
      ([CrudUpdateUser alice (modify_of allowed_inbounds alice); DbRollback], Raise)
  ∧ ∃ h' k, sync_users refusing_env allowed_inbounds [alice; bob] 0 [] = (h', Ok k).
Proof.
  intros allowed_inbounds. split; [|split].
  - apply (proj2 (proj2
             (push_failure_after_persist_is_counted unreachable_env
                allowed_inbounds alice [] 0 [])) alice_synced).
    + vm_compute. reflexivity.
    + reflexivity.
    + vm_compute. reflexivity.
    + left. reflexivity.
    + reflexivity.
    + reflexivity.
  - apply (proj2 (proj1
             (push_failure_after_persist_is_counted stuck_env
                allowed_inbounds alice [bob] 0 []) eq_refl)).
    reflexivity.
  - apply (proj1 (proj2
             (push_failure_after_persist_is_counted refusing_env
                allowed_inbounds alice [bob] 0 []))).
    intros h'. reflexivity.
Defined.

Lemma bulk_status_rebuilds_and_restarts_witness :
  (∃ (w' : Fleet string string) (sweep : list (FleetEvent string string)),
     disable_all_active_users fleet_env "admin"%string fleet
       = (w', Ok "Users successfully disabled"%string)
     ∧ journal w' = [CrudDisableAllActiveUsers "admin"%string; IncludeDbUsers;
                     CoreRestart "config"%string] ++ sweep
     ∧ restarted_nodes sweep
       = [(1, "config"%string); (2, "config"%string); (3, "config"%string)])
  ∧ (∃ (w' : Fleet string string) (sweep : list (FleetEvent string string)),
       activate_all_disabled_users fleet_env "admin"%string fleet
         = (w', Ok "Users successfully activated"%string)
       ∧ journal w' = [CrudActivateAllDisabledUsers "admin"%string; IncludeDbUsers;
                       CoreRestart "config"%string] ++ sweep
       ∧ restarted_nodes sweep
         = [(1, "config"%string); (2, "config"%string); (3, "config"%string)]).
Proof.
  assert (NoDup (nodes fleet).*1) as Hnd by compute_done.
  destruct (bulk_status_rebuilds_and_restarts fleet_env "admin"%string "config"%string
              fleet Hnd) as [Hdisable Hactivate].
  split.
  - destruct Hdisable as (w' & sweep & Hrun & Hj & Hr & _); [reflexivity..|].
    exists w', sweep. split; [exact Hrun|]. split; [exact Hj | exact Hr].
  - destruct Hactivate as (w' & sweep & Hrun & Hj & Hr & _); [reflexivity..|].
    exists w', sweep. split; [exact Hrun|]. split; [exact Hj | exact Hr].
Defined.

Lemma core_failure_fatal_node_failure_skipped_witness :
  (∃ w' : Fleet string string,
     disable_all_active_users broken_core_env "admin"%string fleet = (w', Raise)
     ∧ journal w' = [CrudDisableAllActiveUsers "admin"%string; IncludeDbUsers;
                     CoreRestart "config"%string]
     ∧ nodes w' = nodes fleet)
  ∧ (∃ w' : Fleet string string,
       disable_all_active_users fleet_env "admin"%string fleet
         = (w', Ok "Users successfully disabled"%string)
       ∧ CoreRestart "config"%string ∈ journal w'
       ∧ RestartNode 1 "config"%string ∈ journal w'
       ∧ RestartNode 2 "config"%string ∈ journal w'
       ∧ NodeFailure 2 ∈ journal w'
       ∧ RestartNode 3 "config"%string ∈ journal w').
Proof.
  split.
  - apply (proj1 (core_failure_fatal_node_failure_skipped broken_core_env
                    "admin"%string "config"%string fleet eq_refl eq_refl)).
    reflexivity.
  - destruct (proj2 (core_failure_fatal_node_failure_skipped fleet_env
                       "admin"%string "config"%string fleet eq_refl eq_refl))
      as (w' & Hrun & Hcore & Hnodes & _).
    + reflexivity.
    + compute_done.
    + exists w'. split; [exact Hrun|]. split; [exact Hcore|].
      split; [apply (Hnodes 1 {| connected := true |});
              [apply list_elem_of_here | reflexivity]|].
      split; [apply (Hnodes 2 {| connected := true |});
              [apply list_elem_of_further, list_elem_of_here | reflexivity]|].
      split.
      * vm_compute in Hrun. injection Hrun as <-. vm_compute.
        do 5 apply list_elem_of_further. apply list_elem_of_here.
      * apply (Hnodes 3 {| connected := true |}); [|reflexivity].
        do 3 apply list_elem_of_further. apply list_elem_of_here.
Defined.

(** ** Facts about the client address *)

Section ClientAddress.

Implicit Types (s t pre post : string) (c : Ascii.ascii).

Lemma string_app_assoc s t post : (s +:+ t) +:+ post = s +:+ t +:+ post.
Proof.
  induction s as [|c s IH]; [done|].
  change (String c ((s +:+ t) +:+ post) = String c (s +:+ t +:+ post)).
  by rewrite IH.
Qed.

Lemma comma_is_not_space : is_space comma = false.
Proof. reflexivity. Qed.

Lemma all_space_app pre post :
  all_space (pre +:+ post) = all_space pre && all_space post.
Proof.
  induction pre as [|c pre IH]; simpl; [done|].
  rewrite IH. by rewrite andb_assoc.
Qed.

Lemma all_space_no_comma s : all_space s = true → has_comma s = false.
Proof.
  induction s as [|c s IH]; simpl; [done|].
  intros [Hc Hs]%andb_true_iff. rewrite (IH Hs), orb_false_r.
  destruct (Ascii.eqb_spec c comma) as [->|]; [|done].
  by rewrite comma_is_not_space in Hc.
Qed.

Lemma has_comma_app s t : has_comma (s +:+ t) = has_comma s || has_comma t.
Proof.
  induction s as [|c s IH]; simpl; [done|]. by rewrite IH, orb_assoc.
Qed.

Lemma lstrip_spaces pre t : all_space pre = true → lstrip (pre +:+ t) = lstrip t.
Proof.
  induction pre as [|c pre IH]; simpl; [done|].
  intros [Hc Hs]%andb_true_iff. rewrite Hc. by apply IH.
Qed.

Lemma lstrip_id t : starts_with_space t = false → lstrip t = t.
Proof. destruct t as [|c t]; simpl; [done|]. by intros ->. Qed.

Lemma rstrip_all_space post : all_space post = true → rstrip post = EmptyString.
Proof.
  induction post as [|c post IH]; simpl; [done|].
  intros [Hc Hs]%andb_true_iff. by rewrite (IH Hs), Hc.
Qed.

Lemma rstrip_nonempty t :
  t ≠ EmptyString → ends_with_space t = false → rstrip t = t.
Proof.
  induction t as [|c t IH]; [done|]. intros _ Hend.
  destruct t as [|c' t].
  - simpl in *. by rewrite Hend.
  - change (ends_with_space (String c (String c' t)))
      with (ends_with_space (String c' t)) in Hend.
    change (rstrip (String c (String c' t)))
      with (match rstrip (String c' t) with
            | EmptyString => if is_space c then EmptyString else String c EmptyString
            | r => String c r
            end).
    by rewrite IH.
Qed.

Lemma ends_with_space_app t post :
  post ≠ EmptyString → ends_with_space (t +:+ post) = ends_with_space post.
Proof.
  intros Hpost. induction t as [|c t IH]; [done|].
  change (String c t +:+ post) with (String c (t +:+ post)).
  destruct (t +:+ post) as [|c' r] eqn:E.
  - destruct t; [simpl in E; by subst|done].
  - by rewrite <- IH.
Qed.

Lemma rstrip_spaces t post :
  all_space post = true → rstrip (t +:+ post) = rstrip t.
Proof.
  intros Hpost. induction t as [|c t IH]; simpl.
  - by apply rstrip_all_space.
  - by rewrite IH.
Qed.

(** White space around a text that has none at its ends is what [strip]
    removes. *)
Lemma strip_padded pre t post :
  all_space pre = true → all_space post = true →
  starts_with_space t = false → ends_with_space t = false →
  strip (pre +:+ t +:+ post) = t.
Proof.
  intros Hpre Hpost Hstart Hend. unfold strip.
  destruct t as [|c t].
  - rewrite rstrip_all_space; [done|].
    by rewrite !all_space_app, Hpre, Hpost.
  - replace (pre +:+ String c t +:+ post) with ((pre +:+ String c t) +:+ post)
      by apply string_app_assoc.
    rewrite rstrip_spaces by done.
    rewrite rstrip_nonempty.
    + rewrite lstrip_spaces by done. by apply lstrip_id.
    + by destruct pre.
    + by rewrite ends_with_space_app.
Qed.

Lemma first_field_no_comma t : has_comma t = false → hd EmptyString (split_comma t) = t.
Proof.
  induction t as [|c t IH]; simpl; [done|].
  intros [Hc Ht]%orb_false_iff. rewrite Hc.
  specialize (IH Ht). destruct (split_comma t) as [|f fs]; simpl in *; by subst.
Qed.

Lemma first_field_before_comma t rest :
  has_comma t = false →
  hd EmptyString (split_comma (t +:+ String comma rest)) = t.
Proof.
  induction t as [|c t IH]; simpl.
  - intros _. reflexivity.
  - intros [Hc Ht]%orb_false_iff. rewrite Hc.
    specialize (IH Ht).
    destruct (split_comma (t +:+ String comma rest)) as [|f fs]; simpl in *; by subst.
Qed.

Lemma lstrip_no_leading s : starts_with_space (lstrip s) = false.
Proof.
  induction s as [|c s IH]; simpl; [done|].
  destruct (is_space c) eqn:Hc; [done|]. simpl. by rewrite Hc.
Qed.

Lemma lstrip_keeps_end s : ends_with_space s = false → ends_with_space (lstrip s) = false.
Proof.
  induction s as [|c s IH]; [done|]. intros Hend. simpl.
  destruct (is_space c) eqn:Hc; [|done].
  apply IH. destruct s as [|c' s]; [done|]. exact Hend.
Qed.

Lemma rstrip_no_trailing s : ends_with_space (rstrip s) = false.
Proof.
  induction s as [|c s IH]; simpl; [done|].
  destruct (rstrip s) as [|c' r] eqn:E.
  - destruct (is_space c) eqn:Hc; simpl; [done|]. by rewrite Hc.
  - exact IH.
Qed.

Lemma lstrip_no_comma s : has_comma s = false → has_comma (lstrip s) = false.
Proof.
  induction s as [|c s IH]; simpl; [done|].
  intros [Hc Hs]%orb_false_iff. destruct (is_space c); [by apply IH|].
  simpl. by rewrite Hc, Hs.
Qed.

Lemma rstrip_no_comma s : has_comma s = false → has_comma (rstrip s) = false.
Proof.
  induction s as [|c s IH]; simpl; [done|].
  intros [Hc Hs]%orb_false_iff. specialize (IH Hs).
  destruct (rstrip s) as [|c' r].
  - destruct (is_space c); simpl; [done|]. by rewrite Hc.
  - simpl in *. by rewrite Hc, IH.
Qed.

Lemma first_field_has_no_comma s : has_comma (hd EmptyString (split_comma s)) = false.
Proof.
  induction s as [|c s IH]; simpl; [done|].
  destruct (Ascii.eqb c comma) eqn:Hc; [done|].
  destruct (split_comma s) as [|f fs]; simpl in *; by rewrite Hc.
Qed.

Lemma get_client_ip_forwarded (header : string) (peer : option Address) :
  header ≠ EmptyString →
  get_client_ip {| x_forwarded_for := Some header; client := peer |}
    = strip (hd EmptyString (split_comma header)).
Proof. by destruct header. Qed.

(** X1.  With a non-empty forwarded header the address is a text without a
    comma and without white space at either end, and the peer of the
    connection plays no part in it. *)
Theorem forwarded_address_shape (header : string) (peer peer' : option Address) :
  header ≠ EmptyString →
  let ip := get_client_ip {| x_forwarded_for := Some header; client := peer |} in
  has_comma ip = false
  ∧ starts_with_space ip = false
  ∧ ends_with_space ip = false
  ∧ ip = get_client_ip {| x_forwarded_for := Some header; client := peer' |}.
Proof.
  intros Hne. cbv zeta. rewrite !get_client_ip_forwarded by done.
  unfold strip. split_and!.
  - apply lstrip_no_comma, rstrip_no_comma, first_field_has_no_comma.
  - apply lstrip_no_leading.
  - apply lstrip_keeps_end, rstrip_no_trailing.
  - done.
Qed.

Lemma padded_field (pre ip post : string) :
  all_space pre = true → all_space post = true →
  ip ≠ EmptyString → has_comma ip = false →
  has_comma (pre +:+ ip +:+ post) = false ∧ pre +:+ ip +:+ post ≠ EmptyString.
Proof.
  intros Hpre Hpost Hne Hcomma. split.
  - rewrite !has_comma_app, Hcomma, !all_space_no_comma; done.
  - destruct pre; [|done]. by destruct ip.
Qed.

Lemma first_hop_alone (pre ip post : string) (peer : option Address) :
  all_space pre = true → all_space post = true →
  ip ≠ EmptyString → has_comma ip = false →
  starts_with_space ip = false → ends_with_space ip = false →
  get_client_ip {| x_forwarded_for := Some (pre +:+ ip +:+ post); client := peer |} = ip.
Proof.
  intros Hpre Hpost Hne Hcomma Hstart Hend.
  destruct (padded_field pre ip post Hpre Hpost Hne Hcomma) as [Hfield Hne'].
  rewrite get_client_ip_forwarded by done.
  rewrite first_field_no_comma by done. by apply strip_padded.
Qed.

Lemma first_hop_before_comma (pre ip post rest : string) (peer : option Address) :
  all_space pre = true → all_space post = true →
  ip ≠ EmptyString → has_comma ip = false →
  starts_with_space ip = false → ends_with_space ip = false →
  get_client_ip {| x_forwarded_for := Some ((pre +:+ ip +:+ post) +:+ String comma rest);
                   client := peer |} = ip.
Proof.
  intros Hpre Hpost Hne Hcomma Hstart Hend.
  destruct (padded_field pre ip post Hpre Hpost Hne Hcomma) as [Hfield Hne'].
  rewrite get_client_ip_forwarded.
  - rewrite first_field_before_comma by done. by apply strip_padded.
  - by destruct (pre +:+ ip +:+ post).
Qed.

(** X2.  The address is the first hop of the forwarded header: a text
    without comma and without white space at its ends is returned as it is,
    whatever white space surrounds it and whatever follows the first comma. *)
Theorem forwarded_address_is_first_hop (pre ip post rest : string)
    (peer : option Address) :
  all_space pre = true → all_space post = true →
  ip ≠ EmptyString → has_comma ip = false →
  starts_with_space ip = false → ends_with_space ip = false →
  get_client_ip {| x_forwarded_for := Some (pre +:+ ip +:+ post); client := peer |} = ip
  ∧ get_client_ip {| x_forwarded_for := Some ((pre +:+ ip +:+ post) +:+ String comma rest);
                     client := peer |} = ip.
Proof.
  intros Hpre Hpost Hne Hcomma Hstart Hend. split.
  - by apply first_hop_alone.
  - by apply first_hop_before_comma.
Qed.

(** X3.  A forwarded header whose first field is blank gives the empty text
    as the address: neither the peer of the connection nor "Unknown" is used
    once the header is non-empty. *)
Theorem blank_first_hop_gives_empty_address (blank rest : string)
    (peer : option Address) :
  all_space blank = true →
  (blank ≠ EmptyString →
   get_client_ip {| x_forwarded_for := Some blank; client := peer |} = EmptyString)
  ∧ get_client_ip {| x_forwarded_for := Some (blank +:+ String comma rest);
                     client := peer |} = EmptyString.
Proof.
  intros Hblank.
  assert (strip blank = EmptyString) as Hstrip.
  { unfold strip. by rewrite rstrip_all_space. }
  split.
  - intros Hne. rewrite get_client_ip_forwarded by done.
    by rewrite first_field_no_comma by by apply all_space_no_comma.
  - rewrite get_client_ip_forwarded by by destruct blank.
    by rewrite first_field_before_comma by by apply all_space_no_comma.
Qed.

End ClientAddress.

(** ** Facts about the login and the account handlers *)

Section LoginFacts.

Context {Text Token : Type}.
Variable lock : Text.
Variable validate_admin : Text → Text → option DbAdmin.
Variable create_admin_token : Text → bool → Token.
Variable LOGIN_NOTIFY_WHITE_LIST : list string.

(** X4.  A login makes at most one report.  A token is answered exactly when
    the credentials validate; a rejected login is always reported, as a
    failure and with the password that was tried; an accepted login is
    reported only from an address outside the white list, as a success and
    with the lock in place of the password. *)
Theorem login_is_reported_without_password (request : Request)
    (form_username form_password : Text) :
  let run := admin_token lock validate_admin create_admin_token
               LOGIN_NOTIFY_WHITE_LIST request form_username form_password in
  (length run.1 ≤ 1)%nat
  ∧ ((∃ token, run.2 = Return token)
     ↔ is_Some (validate_admin form_username form_password))
  ∧ (validate_admin form_username form_password = None →
     run.1 = [ReportLogin form_username form_password (get_client_ip request) false])
  ∧ (∀ dbadmin, validate_admin form_username form_password = Some dbadmin →
     run.2 = Return (create_admin_token form_username (is_sudo dbadmin))
     ∧ (get_client_ip request ∈ LOGIN_NOTIFY_WHITE_LIST → run.1 = [])
     ∧ (get_client_ip request ∉ LOGIN_NOTIFY_WHITE_LIST →
        run.1 = [ReportLogin form_username lock (get_client_ip request) true])).
Proof.
  cbv zeta. unfold admin_token.
  destruct (validate_admin form_username form_password) as [dbadmin|]; simpl.
  - split_and!.
    + case_bool_decide; simpl; lia.
    + split; eauto.
    + done.
    + intros ? [= <-]. split_and!; [done| |].
      * intros Hin. by rewrite bool_decide_eq_false_2 by (by intros Hn; apply Hn).
      * intros Hout. by rewrite bool_decide_eq_true_2.
  - split_and!; [lia| |done|done].
    split; [by intros [? ?] | by intros [? ?]].
Qed.

(** X5.  The white list is matched against the first hop of the forwarded
    header: an accepted login whose header names a white-listed address first
    is not reported, whatever the peer of the connection is. *)
Theorem whitelisted_first_hop_is_not_reported (pre ip post rest : string)
    (peer : option Address) (form_username form_password : Text) :
  is_Some (validate_admin form_username form_password) →
  ip ∈ LOGIN_NOTIFY_WHITE_LIST →
  all_space pre = true → all_space post = true →
  ip ≠ EmptyString → has_comma ip = false →
  starts_with_space ip = false → ends_with_space ip = false →
  (admin_token lock validate_admin create_admin_token LOGIN_NOTIFY_WHITE_LIST
     {| x_forwarded_for := Some ((pre +:+ ip +:+ post) +:+ String comma rest);
        client := peer |}
     form_username form_password).1 = [].
Proof.
  intros [dbadmin Hvalid] Hin Hpre Hpost Hne Hcomma Hstart Hend.
  unfold admin_token. rewrite Hvalid. simpl.
  rewrite (first_hop_before_comma pre ip post rest peer
             Hpre Hpost Hne Hcomma Hstart Hend).
  by rewrite bool_decide_eq_false_2 by (by intros Hn; apply Hn).
Qed.

End LoginFacts.

Section AccountFacts.

Context {NewAdmin ModifiedAdmin : Type}.
Variable crud_create_admin : NewAdmin → CreateResult.
Variable crud_update_admin : DbAdmin → ModifiedAdmin → option DbAdmin.
Variable crud_remove_admin : DbAdmin → bool.

(** X6.  Creating an admin always asks the store first.  The store is rolled
    back exactly when it raised an integrity error, and exactly then the
    answer is 409; the new row is answered exactly when the store returned
    it. *)
Theorem create_admin_rolls_back_on_conflict (new_admin : NewAdmin) :
  let run := create_admin (ModifiedAdmin := ModifiedAdmin) crud_create_admin new_admin in
  head run.1 = Some (CrudCreateAdmin new_admin)
  ∧ (AdminRollback ∈ run.1 ↔ crud_create_admin new_admin = IntegrityError)
  ∧ (run.2 = HTTPException 409 "Admin already exists" []
     ↔ crud_create_admin new_admin = IntegrityError)
  ∧ (∀ dbadmin, run.2 = Return dbadmin ↔ crud_create_admin new_admin = Created dbadmin).
Proof.
  cbv zeta. unfold create_admin.
  destruct (crud_create_admin new_admin) as [dbadmin| |]; simpl; split_and!; try done.
  - split; [|done]. intros Hin.
    apply list_elem_of_singleton in Hin. discriminate.
  - intros d. split; by intros [= ->].
  - split; [done|]. intros _. apply list_elem_of_further, list_elem_of_here.
  - split; [|done]. intros Hin.
    apply list_elem_of_singleton in Hin. discriminate.
Qed.

(** X7.  The store is asked to update an account exactly when the account is
    not a sudoer's or is the caller's own, and asked to remove it exactly when
    it is not a sudoer's.  So whatever may be removed may be edited, and a
    sudoer can edit but not remove its own account. *)
Theorem sudo_accounts_are_guarded (modified_admin : ModifiedAdmin)
    (dbadmin current_admin : DbAdmin) :
  let edit := modify_admin (NewAdmin := NewAdmin) crud_update_admin
                modified_admin dbadmin current_admin in
  let removal := remove_admin (NewAdmin := NewAdmin) (ModifiedAdmin := ModifiedAdmin)
                   crud_remove_admin dbadmin current_admin in
  (CrudUpdateAdmin dbadmin modified_admin ∈ edit.1
   ↔ is_sudo dbadmin = false ∨ username dbadmin = username current_admin)
  ∧ (CrudRemoveAdmin dbadmin ∈ removal.1 ↔ is_sudo dbadmin = false)
  ∧ (CrudRemoveAdmin dbadmin ∈ removal.1 →
     CrudUpdateAdmin dbadmin modified_admin ∈ edit.1)
  ∧ (is_sudo dbadmin = true → removal.1 = [] ∧ ∃ detail, removal.2 = HTTPException 403 detail [])
  ∧ (edit.1 = [] → ∃ detail, edit.2 = HTTPException 403 detail []).
Proof.
  cbv zeta.
  assert (CrudUpdateAdmin dbadmin modified_admin
            ∈ (modify_admin (NewAdmin := NewAdmin) crud_update_admin
                 modified_admin dbadmin current_admin).1
          ↔ is_sudo dbadmin = false ∨ username dbadmin = username current_admin) as Hedit.
  { unfold modify_admin. case_bool_decide as Hname; simpl.
    - destruct (is_sudo dbadmin); simpl.
      + split; [by intros ?%elem_of_nil | by intros [|]].
      + destruct (crud_update_admin _ _); simpl;
          (split; [by left | intros _; apply list_elem_of_here]).
    - destruct (crud_update_admin _ _); simpl;
        (split; [by right | intros _; apply list_elem_of_here]). }
  assert (CrudRemoveAdmin dbadmin
            ∈ (remove_admin (NewAdmin := NewAdmin) (ModifiedAdmin := ModifiedAdmin)
                 crud_remove_admin dbadmin current_admin).1
          ↔ is_sudo dbadmin = false) as Hremove.
  { unfold remove_admin. destruct (is_sudo dbadmin); simpl.
    - split; [by intros ?%elem_of_nil | done].
    - destruct (crud_remove_admin dbadmin); simpl;
        (split; [done | intros _; apply list_elem_of_here]). }
  split_and!; [done|done| | |].
  - intros Hr%Hremove. apply Hedit. by left.
  - intros Hs. unfold remove_admin. rewrite Hs. simpl. eauto.
  - unfold modify_admin. case_bool_decide; destruct (is_sudo dbadmin); simpl;
      try destruct (crud_update_admin _ _); simpl; try done; eauto.
Qed.

End AccountFacts.

(** ** More facts about [sync_admin] *)

Section SyncReport.

Context {Settings : Type} `{!EqDecision Settings}.
Context `{!SetOrder} `{!ProxyModels Settings}.
Variable env : SyncEnv Settings.

Implicit Types (allowed_inbounds : gmap ProxyTypes (list string)).
Implicit Types (configs : gmap ProxyTypes (list ProxyInbound)).
Implicit Types (users : list (User Settings)) (user : User Settings).
Implicit Types (h evs : list (Event Settings)) (protocol : ProxyTypes).

Lemma count_events_app (f : Event Settings → bool) evs evs' :
  count_events f (evs ++ evs') = count_events f evs + count_events f evs'.
Proof. unfold count_events. rewrite filter_app, length_app. lia. Qed.

(** The try body of one user: no rollback, at most one store update. *)
Lemma sync_user_counts allowed_inbounds user h :
  ∃ evs,
    (sync_user env allowed_inbounds user h).1 = h ++ evs
    ∧ count_events is_rollback evs = 0
    ∧ 0 ≤ count_events is_store_update evs ≤ 1.
Proof.
  rewrite sync_user_unfold. cbv zeta.
  destruct (changed allowed_inbounds user).
  2:{ exists []. by rewrite app_nil_r. }
  destruct (UserModify_accepts _ _ _).
  2:{ exists []. by rewrite app_nil_r. }
  destruct (crud_update_user _ _ _ _) as [user'|].
  2:{ eexists. split; [done|]. by vm_compute. }
  case_bool_decide; (eexists; split; [done|]; by vm_compute).
Qed.

(** The calls of one user's try body make a turn, and so do they with the
    rollback of the handler after them. *)
Lemma sync_user_segment allowed_inbounds user h :
  ∃ evs,
    (sync_user env allowed_inbounds user h).1 = h ++ evs
    ∧ turn_segment allowed_inbounds user evs
    ∧ turn_segment allowed_inbounds user (evs ++ [DbRollback])
    ∧ count_events is_rollback evs = 0.
Proof.
  destruct (sync_user_counts allowed_inbounds user h) as (evs & Hh & Hr & Hw).
  destruct (sync_user_trace env allowed_inbounds user h) as (evs' & Hh' & Hwr & _).
  rewrite Hh in Hh'. apply app_inv_head in Hh'. subst evs'.
  exists evs. split; [done|]. split_and!; [| |done].
  - split_and!; [lia..|]. intros u m Hin. by destruct (Hwr u m Hin) as (-> & -> & _).
  - unfold turn_segment. rewrite !count_events_app.
    change (count_events is_rollback [@DbRollback Settings]) with 1.
    change (count_events is_store_update [@DbRollback Settings]) with 0.
    split_and!; [lia..|]. intros u m [Hin|Hin]%elem_of_app.
    + by destruct (Hwr u m Hin) as (-> & -> & _).
    + by apply list_elem_of_singleton in Hin.
Qed.

(** The loop, turn by turn.  It adds the same calls whatever the counter it
    starts from, and counts the rollbacks; it ends early only when a rollback
    raises, and that rollback is then its last call. *)
Lemma sync_users_segments allowed_inbounds users h :
  ∃ (segments : list (list (Event Settings))) (ok : bool),
    (∀ n : Z, sync_users env allowed_inbounds users n h
              = (h ++ concat segments,
                 if ok then Ok (n + count_events is_rollback (concat segments))
                 else Raise))
    ∧ Forall2 (turn_segment allowed_inbounds) (take (length segments) users) segments
    ∧ (ok = true → length segments = length users)
    ∧ (ok = false →
       ∃ h', h ++ concat segments = h' ++ [DbRollback]
             ∧ db_rollback_returns env h' = false)
    ∧ 0 ≤ count_events is_rollback (concat segments) ≤ Z.of_nat (length users).
Proof.
  revert h. induction users as [|u users IH]; intros h.
  { exists [], true. split_and!; [|apply Forall2_nil_2|done|done|by vm_compute..].
    intros n. simpl. unfold mret, M_ret. rewrite app_nil_r.
    change (count_events is_rollback []) with 0. by rewrite Z.add_0_r. }
  destruct (sync_user_segment allowed_inbounds u h) as (evs & Hh & Hseg & Hseg' & Hr0).
  destruct (sync_user env allowed_inbounds u h) as [h' r] eqn:Hrun.
  simpl in Hh. subst h'. destruct r as [[]|].
  - destruct (IH (h ++ evs)) as (segs & ok & Hloop & Hturns & Hlen & Hraise & Hr).
    exists (evs :: segs), ok. simpl concat. rewrite count_events_app, !length_cons.
    split_and!.
    + intros n. rewrite sync_users_cons, Hrun, Hloop, app_assoc.
      destruct ok; do 2 f_equal. lia.
    + simpl. by constructor.
    + intros Hok. simpl. by rewrite Hlen.
    + intros Hok. destruct (Hraise Hok) as (h' & Heq & Hfalse).
      exists h'. by rewrite app_assoc.
    + lia.
    + lia.
  - destruct (db_rollback_returns env (h ++ evs)) eqn:Hrollback.
    + destruct (IH ((h ++ evs) ++ [DbRollback]))
        as (segs & ok & Hloop & Hturns & Hlen & Hraise & Hr).
      exists ((evs ++ [DbRollback]) :: segs), ok. simpl concat.
      rewrite !count_events_app, !length_cons.
      change (count_events is_rollback [@DbRollback Settings]) with 1.
      split_and!.
      * intros n. rewrite sync_users_cons, Hrun, Hrollback, Hloop, !app_assoc.
        destruct ok; do 2 f_equal. lia.
      * simpl. by constructor.
      * intros Hok. simpl. by rewrite Hlen.
      * intros Hok. destruct (Hraise Hok) as (h' & Heq & Hfalse).
        exists h'. by rewrite !app_assoc.
      * lia.
      * lia.
    + exists [evs ++ [DbRollback]], false. simpl concat.
      rewrite app_nil_r, count_events_app, !length_cons.
      change (count_events is_rollback [@DbRollback Settings]) with 1.
      split_and!.
      * intros n. by rewrite sync_users_cons, Hrun, Hrollback, app_assoc.
      * simpl. constructor; [done|constructor].
      * done.
      * intros _. exists (h ++ evs). by rewrite app_assoc.
      * lia.
      * lia.
Qed.

(** X8.  The calls of a sync are the calls of its turns, one turn per user in
    the order of the users; each turn updates the store at most once, for its
    own user and with the patch computed for that user, and rolls back at most
    once.  A report that sync answers adds up: every user had a turn, total is
    the number of users, success + unsuccessful = total, unsuccessful lies
    between 0 and total and is the number of rollbacks made.  Sync answers a
    report when every rollback returns; when it raises instead, its last call
    is a rollback that raised. *)
Theorem sync_report_adds_up configs users h :
  let allowed_inbounds := allowed_inbounds_of configs in
  let run := sync_admin env configs users h in
  ∃ segments : list (list (Event Settings)),
    sync_events env configs users h = concat segments
    ∧ Forall2 (turn_segment allowed_inbounds) (take (length segments) users) segments
    ∧ (∀ report : Report, run.2 = Ok report →
         length segments = length users
         ∧ total report = Z.of_nat (length users)
         ∧ success report + unsuccessful report = total report
         ∧ 0 ≤ unsuccessful report ≤ total report
         ∧ unsuccessful report
           = count_events is_rollback (sync_events env configs users h))
    ∧ ((∀ h', db_rollback_returns env h' = true) → ∃ report, run.2 = Ok report)
    ∧ (run.2 = Raise →
       ∃ h', run.1 = h' ++ [DbRollback] ∧ db_rollback_returns env h' = false).
Proof.
  intros allowed_inbounds run.
  destruct (sync_users_segments allowed_inbounds users h)
    as (segments & ok & Hloop & Hturns & Hlen & Hraise & Hr).
  exists segments. subst run.
  unfold sync_events, sync_admin, mbind, M_bind, mret, M_ret.
  fold allowed_inbounds. rewrite (Hloop 0).
  destruct ok; simpl; rewrite drop_app_length.
  - split_and!; try done.
    + intros report [= <-]. simpl. rewrite Hlen by done. split_and!; [done| done | lia..].
    + eauto.
  - split_and!; try done.
    + intros Hall. destruct Hraise as (h' & _ & Hfalse); [done|].
      by rewrite Hall in Hfalse.
    + intros _. by apply Hraise.
Qed.

(** X9.  Running a sync over [before ++ after] is running it over [before]
    and then, when that run answers a report, over [after]: the calls are the
    same, the run raises when the second one does, and the three counts of its
    report are the sums of the counts of the two reports.  When the run over
    [before] raises, the run over [before ++ after] ends there with it.  In
    particular, when every rollback returns, the three runs answer a report,
    the calls are the same and the counts add up. *)
Theorem sync_splits_over_users configs (before after : list (User Settings)) h :
  let first := sync_admin env configs before h in
  let second := sync_admin env configs after first.1 in
  let whole := sync_admin env configs (before ++ after) h in
  (first.2 = Raise → whole.1 = first.1 ∧ whole.2 = Raise)
  ∧ (∀ r1 : Report, first.2 = Ok r1 →
       whole.1 = second.1
       ∧ (second.2 = Raise → whole.2 = Raise)
       ∧ ∀ r2 : Report, second.2 = Ok r2 →
           ∃ r : Report,
             whole.2 = Ok r
             ∧ total r = total r1 + total r2
             ∧ success r = success r1 + success r2
             ∧ unsuccessful r = unsuccessful r1 + unsuccessful r2)
  ∧ ((∀ h', db_rollback_returns env h' = true) →
     whole.1 = second.1
     ∧ ∃ r1 r2 r : Report,
         first.2 = Ok r1 ∧ second.2 = Ok r2 ∧ whole.2 = Ok r
         ∧ total r = total r1 + total r2
         ∧ success r = success r1 + success r2
         ∧ unsuccessful r = unsuccessful r1 + unsuccessful r2).
Proof.
  cbv zeta.
  destruct (sync_users_segments (allowed_inbounds_of configs) before h)
    as (segs1 & ok1 & Hloop1 & _ & _ & Hraise1 & _).
  destruct (sync_users_segments (allowed_inbounds_of configs) after
              (h ++ concat segs1)) as (segs2 & ok2 & Hloop2 & _ & _ & Hraise2 & _).
  unfold sync_admin, mbind, M_bind, mret, M_ret.
  rewrite sync_users_app, !Hloop1.
  destruct ok1; simpl.
  - rewrite !Hloop2. destruct ok2; simpl.
    + split_and!; try done.
      * intros r1 [= <-]. split_and!; try done.
        intros r2 [= <-]. eexists. split; [done|]. simpl.
        rewrite ?length_app. lia.
      * intros _. split; [done|]. do 3 eexists.
        split_and!; try done; simpl; rewrite ?length_app; lia.
    + split_and!; try done.
      intros Hall. destruct Hraise2 as (h' & _ & Hfalse); [done|].
      by rewrite Hall in Hfalse.
  - split_and!; try done.
    intros Hall. destruct Hraise1 as (h' & _ & Hfalse); [done|].
    by rewrite Hall in Hfalse.
Qed.

End SyncReport.

(** ** More facts about the reconciliation of one user *)

Section ReconciliationEdges.

Context {Settings : Type} `{!EqDecision Settings}.
Context `{!SetOrder} `{!ProxyModels Settings}.

Implicit Types (allowed_inbounds : gmap ProxyTypes (list string)).
Implicit Types (user : User Settings) (protocol : ProxyTypes).
Implicit Types (ps qs : list (Proxy Settings)).





Lemma settings_map_empty ps : settings_map ps = ∅ ↔ ps = [].
Proof.
  split; [|by intros ->].
  destruct ps as [|p ps _] using rev_ind; [done|].
  rewrite settings_map_snoc. intros Hempty.
  by apply insert_non_empty in Hempty.
Qed.

(** X11.  A sync with an empty policy takes everything away: the patch
    computed for any user has no inbounds and no settings, and only a user
    who has neither inbounds nor proxy rows is left alone. *)
Theorem empty_policy_clears_users user :
  modify_of (allowed_inbounds_of ∅) user = {| um_inbounds := ∅; um_proxies := ∅ |}
  ∧ (changed (allowed_inbounds_of ∅) user = false
     ↔ inbounds user = ∅ ∧ proxies user = []).
Proof.
  assert (sync_new_inbounds (allowed_inbounds_of ∅) user = ∅) as Hni.
  { apply map_eq. intros protocol.
    rewrite sync_new_inbounds_lookup. unfold allowed_inbounds_of.
    by rewrite fmap_empty, !lookup_empty. }
  assert (sync_new_proxies ∅ user = ∅) as Hnp.
  { apply map_eq. intros protocol.
    by rewrite sync_new_proxies_lookup, !lookup_empty. }
  split.
  - unfold modify_of. cbv zeta. by rewrite Hni, Hnp.
  - unfold changed. cbv zeta. rewrite Hni, Hnp, orb_false_iff.
    rewrite !bool_decide_eq_false. split.
    + intros [Hi Hp]. split.
      * by destruct (decide (inbounds user = ∅)) as [|Hne]; [|destruct Hi; congruence].
      * apply settings_map_empty.
        by destruct (decide (settings_map (proxies user) = ∅)) as [|Hne];
          [|destruct Hp; congruence].
    + intros [-> ->]. split; by intros [].
Qed.

Lemma keep_allowed_nil (allowed_tags tags : list string) :
  keep_allowed allowed_tags tags = [] ↔ ∀ t : string, t ∈ tags → t ∉ allowed_tags.
Proof.
  unfold keep_allowed. induction tags as [|t tags IH].
  - split; [by intros _ t ?%elem_of_nil | done].
  - destruct (decide (t ∈ allowed_tags)) as [Hin|Hout].
    + rewrite filter_cons_True by done. split; [done|].
      intros Hall. destruct (Hall t); [apply list_elem_of_here | done].
    + rewrite filter_cons_False by done. rewrite IH. split.
      * intros Hall t' [->|Hin]%elem_of_cons; [done | by apply Hall].
      * intros Hall t' Hin. by apply Hall, list_elem_of_further.
Qed.

(** X12.  Under a protocol of the policy, a user who holds none of the
    policy's tags for it receives the policy's list as it is, order and
    repetitions included; a user who holds at least one of them receives a
    list without repetitions of the same tags. *)
Theorem granted_tags_verbatim_or_duplicate_free allowed_inbounds user protocol
    (tags : list string) :
  allowed_inbounds !! protocol = Some tags →
  ((∀ (held : list string) (t : string),
      inbounds user !! protocol = Some held → t ∈ held → t ∉ tags) →
   sync_new_inbounds allowed_inbounds user !! protocol = Some tags)
  ∧ (∀ (held : list string) (t : string),
       inbounds user !! protocol = Some held → t ∈ held → t ∈ tags →
       ∃ new_tags : list string,
         sync_new_inbounds allowed_inbounds user !! protocol = Some new_tags
         ∧ NoDup new_tags
         ∧ ∀ t' : string, t' ∈ new_tags ↔ t' ∈ tags).
Proof.
  intros Ha. rewrite sync_new_inbounds_lookup, carried_inbounds_lookup, Ha. split.
  - intros Hnone. destruct (inbounds user !! protocol) as [held|]; [|done].
    rewrite (proj2 (keep_allowed_nil tags held)); [done|].
    intros t. by apply Hnone.
  - intros held t -> Hheld Htags.
    destruct (keep_allowed tags held) as [|k ks] eqn:Hkeep.
    { rewrite keep_allowed_nil in Hkeep. by destruct (Hkeep t Hheld). }
    eexists. split; [done|]. split; [apply list_set_union_NoDup|].
    intros t'. rewrite list_set_union_elem, <- Hkeep.
    unfold keep_allowed. rewrite list_elem_of_filter. tauto.
Qed.

End ReconciliationEdges.

(** ** More facts about the bulk status operations *)

Section BulkEdges.

Context {Admin Config : Type}.
Variable env : FleetEnv Admin Config.

Implicit Types (w : Fleet Admin Config) (cfg : Config) (dbadmin : Admin).

(** X13.  When the bulk status change of the store raises, nothing else is
    called; when the builder of the startup configuration raises, the local
    core is not restarted.  In both cases the request ends with the error and
    no node is touched. *)
Theorem bulk_status_stops_at_first_failure dbadmin w :
  (crud_disable_all_active_users env (journal w) dbadmin = false →
   disable_all_active_users env dbadmin w
     = ({| nodes := nodes w;
           journal := journal w ++ [CrudDisableAllActiveUsers dbadmin] |}, Raise))
  ∧ (crud_disable_all_active_users env (journal w) dbadmin = true →
     xray_config_include_db_users env
       (journal w ++ [CrudDisableAllActiveUsers dbadmin]) = None →
     disable_all_active_users env dbadmin w
       = ({| nodes := nodes w;
             journal := journal w ++ [CrudDisableAllActiveUsers dbadmin; IncludeDbUsers] |},
          Raise))
  ∧ (crud_activate_all_disabled_users env (journal w) dbadmin = false →
     activate_all_disabled_users env dbadmin w
       = ({| nodes := nodes w;
             journal := journal w ++ [CrudActivateAllDisabledUsers dbadmin] |}, Raise))
  ∧ (crud_activate_all_disabled_users env (journal w) dbadmin = true →
     xray_config_include_db_users env
       (journal w ++ [CrudActivateAllDisabledUsers dbadmin]) = None →
     activate_all_disabled_users env dbadmin w
       = ({| nodes := nodes w;
             journal := journal w ++ [CrudActivateAllDisabledUsers dbadmin; IncludeDbUsers] |},
          Raise)).
Proof.
  split_and!.
  - intros Hcrud. unfold disable_all_active_users.
    rewrite M_bind_unfold. unfold call_crud_disable_all_active_users. by rewrite Hcrud.
  - intros Hcrud Hcfg. unfold disable_all_active_users.
    rewrite M_bind_unfold. unfold call_crud_disable_all_active_users. rewrite Hcrud.
    rewrite M_bind_unfold. unfold call_include_db_users. simpl journal. rewrite Hcfg.
    unfold record. simpl. by rewrite <- app_assoc.
  - intros Hcrud. unfold activate_all_disabled_users.
    rewrite M_bind_unfold. unfold call_crud_activate_all_disabled_users. by rewrite Hcrud.
  - intros Hcrud Hcfg. unfold activate_all_disabled_users.
    rewrite M_bind_unfold. unfold call_crud_activate_all_disabled_users. rewrite Hcrud.
    rewrite M_bind_unfold. unfold call_include_db_users. simpl journal. rewrite Hcfg.
    unfold record. simpl. by rewrite <- app_assoc.
Qed.

Lemma nodes_get_in node_id (node : Node) (l : list (Z * Node)) :
  nodes_get node_id l = Some node → (node_id, node) ∈ l.
Proof.
  induction l as [|[i n] l IH]; simpl; [done|].
  destruct (decide (i = node_id)) as [->|].
  - intros [= ->]. apply list_elem_of_here.
  - intros Hget. by apply list_elem_of_further, IH.
Qed.

(** A sweep over entries none of which is connected calls nothing. *)
Lemma restart_connected_nodes_idle (items : list (Z * Node)) cfg w :
  (∀ node_id node, (node_id, node) ∈ items → connected node = false) →
  (∀ node_id node, (node_id, node) ∈ nodes w → connected node = false) →
  restart_connected_nodes env items cfg w = (w, Ok tt).
Proof.
  intros Hitems Hlive. induction items as [|[node_id node] items IH]; [done|].
  simpl. rewrite M_bind_unfold. unfold node_connected.
  assert (default (connected node) (connected <$> nodes_get node_id (nodes w)) = false)
    as ->.
  { destruct (nodes_get node_id (nodes w)) as [live|] eqn:Hget; simpl.
    - eapply Hlive, nodes_get_in, Hget.
    - eapply Hitems, list_elem_of_here. }
  rewrite M_bind_unfold. unfold mret at 1, M_ret at 1.
  apply IH. intros i n Hin. eapply Hitems, list_elem_of_further, Hin.
Qed.

(** X14.  With no connected node in the registry (an empty registry
    included), a bulk status operation that succeeds makes exactly three
    calls, to the store, to the configuration builder and to the local core,
    and leaves the registry as it was. *)
Theorem bulk_status_without_connected_nodes dbadmin cfg w :
  connected_ids (nodes w) = [] →
  (crud_disable_all_active_users env (journal w) dbadmin = true →
   xray_config_include_db_users env
     (journal w ++ [CrudDisableAllActiveUsers dbadmin]) = Some cfg →
   xray_core_restart env
     (journal w ++ [CrudDisableAllActiveUsers dbadmin; IncludeDbUsers]) cfg = true →
   disable_all_active_users env dbadmin w
     = ({| nodes := nodes w;
           journal := journal w ++ [CrudDisableAllActiveUsers dbadmin; IncludeDbUsers;
                                    CoreRestart cfg] |},
        Ok "Users successfully disabled"%string))
  ∧ (crud_activate_all_disabled_users env (journal w) dbadmin = true →
     xray_config_include_db_users env
       (journal w ++ [CrudActivateAllDisabledUsers dbadmin]) = Some cfg →
     xray_core_restart env
       (journal w ++ [CrudActivateAllDisabledUsers dbadmin; IncludeDbUsers]) cfg = true →
     activate_all_disabled_users env dbadmin w
       = ({| nodes := nodes w;
             journal := journal w ++ [CrudActivateAllDisabledUsers dbadmin; IncludeDbUsers;
                                      CoreRestart cfg] |},
          Ok "Users successfully activated"%string)).
Proof.
  intros Hnone.
  assert (∀ node_id node, (node_id, node) ∈ nodes w → connected node = false) as Hoff.
  { intros node_id node Hin. destruct (connected node) eqn:Hc; [|done].
    unfold connected_ids in Hnone. apply fmap_nil_inv in Hnone.
    by destruct (filter_nil_not_elem_of _ _ (node_id, node) Hnone Hc). }
  split; intros Hcrud Hcfg Hcore.
  - unfold disable_all_active_users.
    rewrite M_bind_unfold. unfold call_crud_disable_all_active_users. rewrite Hcrud.
    rewrite M_bind_unfold. unfold call_include_db_users. simpl journal. rewrite Hcfg.
    rewrite M_bind_unfold. unfold call_core_restart. simpl journal.
    rewrite <- app_assoc. simpl app. rewrite Hcore.
    rewrite M_bind_unfold. unfold xray_nodes_items. rewrite M_bind_unfold.
    rewrite restart_connected_nodes_idle by done.
    unfold mret, M_ret, record. simpl. by rewrite <- !app_assoc.
  - unfold activate_all_disabled_users.
    rewrite M_bind_unfold. unfold call_crud_activate_all_disabled_users. rewrite Hcrud.
    rewrite M_bind_unfold. unfold call_include_db_users. simpl journal. rewrite Hcfg.
    rewrite M_bind_unfold. unfold call_core_restart. simpl journal.
    rewrite <- app_assoc. simpl app. rewrite Hcore.
    rewrite M_bind_unfold. unfold xray_nodes_items. rewrite M_bind_unfold.
    rewrite restart_connected_nodes_idle by done.
    unfold mret, M_ret, record. simpl. by rewrite <- !app_assoc.
Qed.

End BulkEdges.

(** ** The further theorems at concrete runs *)

Import RouterExamples.

Lemma forwarded_address_shape_witness :
  get_client_ip proxied = "203.0.113.7"%string
  ∧ has_comma (get_client_ip proxied) = false
  ∧ get_client_ip proxied
    = get_client_ip {| x_forwarded_for := x_forwarded_for proxied; client := None |}.
Proof.
  split; [reflexivity|].
  destruct (forwarded_address_shape " 203.0.113.7 , 10.0.0.1"%string
              (client proxied) None) as (Hcomma & _ & _ & Hpeer).
  - discriminate.
  - split; [exact Hcomma | exact Hpeer].
Defined.

Lemma forwarded_address_is_first_hop_witness :
  get_client_ip {| x_forwarded_for := Some " 203.0.113.7 "%string; client := None |}
    = "203.0.113.7"%string
  ∧ get_client_ip proxied = "203.0.113.7"%string.
Proof.
  apply (forwarded_address_is_first_hop " " "203.0.113.7" " " " 10.0.0.1"
           (client proxied)); try reflexivity.
  discriminate.
Defined.

Lemma blank_first_hop_gives_empty_address_witness :
  get_client_ip {| x_forwarded_for := Some "  "%string;
                   client := Some {| host := "10.0.0.1" |} |} = EmptyString
  ∧ get_client_ip {| x_forwarded_for := Some "  ,10.0.0.1"%string;
                     client := Some {| host := "10.0.0.1" |} |} = EmptyString.
Proof.
  destruct (blank_first_hop_gives_empty_address "  " "10.0.0.1"
              (Some {| host := "10.0.0.1" |})) as [Halone Hcomma].
  - reflexivity.
  - split; [apply Halone; discriminate | exact Hcomma].
Defined.

Lemma login_is_reported_without_password_witness :
  (admin_token "lock"%string validate make_token white_list
     {| x_forwarded_for := None; client := Some {| host := "198.51.100.9" |} |}
     "root"%string "guess"%string).1
    = [ReportLogin "root"%string "guess"%string "198.51.100.9"%string false]
  ∧ (admin_token "lock"%string validate make_token white_list
       {| x_forwarded_for := None; client := Some {| host := "198.51.100.9" |} |}
       "root"%string "secret"%string).1
    = [ReportLogin "root"%string "lock"%string "198.51.100.9"%string true]
  ∧ (admin_token "lock"%string validate make_token white_list
       {| x_forwarded_for := None; client := Some {| host := "127.0.0.1" |} |}
       "root"%string "secret"%string).1 = [].
Proof.
  split; [|split].
  - apply (proj1 (proj2 (proj2
             (login_is_reported_without_password "lock"%string validate make_token
                white_list
                {| x_forwarded_for := None; client := Some {| host := "198.51.100.9" |} |}
                "root"%string "guess"%string)))).
    reflexivity.
  - apply (proj2 (proj2 (proj2 (proj2
             (login_is_reported_without_password "lock"%string validate make_token
                white_list
                {| x_forwarded_for := None; client := Some {| host := "198.51.100.9" |} |}
                "root"%string "secret"%string))) root eq_refl)).
    compute_done.
  - apply (proj1 (proj2 (proj2 (proj2 (proj2
             (login_is_reported_without_password "lock"%string validate make_token
                white_list
                {| x_forwarded_for := None; client := Some {| host := "127.0.0.1" |} |}
                "root"%string "secret"%string))) root eq_refl))).
    apply list_elem_of_here.
Defined.

Lemma whitelisted_first_hop_is_not_reported_witness :
  (admin_token "lock"%string validate make_token white_list proxied
     "root"%string "secret"%string).1 = [].
Proof.
  apply (whitelisted_first_hop_is_not_reported "lock"%string validate make_token
           white_list " " "203.0.113.7" " " " 10.0.0.1" (client proxied)
           "root"%string "secret"%string); try reflexivity.
  - exists root. reflexivity.
  - apply list_elem_of_further, list_elem_of_here.
  - discriminate.
Defined.

Lemma sudo_accounts_are_guarded_witness :
  (remove_admin (NewAdmin := unit) (ModifiedAdmin := unit) (λ _, true) root root).1 = []
  ∧ CrudUpdateAdmin staff tt
      ∈ (modify_admin (NewAdmin := unit) (λ dbadmin _, Some dbadmin) tt staff root).1.
Proof.
  destruct (sudo_accounts_are_guarded (NewAdmin := unit) (λ dbadmin _, Some dbadmin)
              (λ _, true) tt root root) as (_ & _ & _ & Hown & _).
  destruct (sudo_accounts_are_guarded (NewAdmin := unit) (λ dbadmin _, Some dbadmin)
              (λ _, true) tt staff root) as (_ & Hremove & Himplies & _).
  split.
  - apply Hown. reflexivity.
  - apply Himplies, Hremove. reflexivity.
Defined.


Lemma granted_tags_verbatim_or_duplicate_free_witness :
  sync_new_inbounds (allowed_inbounds_of twice_policy) dave !! VMess
    = Some ["a"; "a"]%string
  ∧ ∃ new_tags : list string,
      sync_new_inbounds (allowed_inbounds_of twice_policy) dave_synced !! VMess
        = Some new_tags
      ∧ NoDup new_tags.
Proof.
  split.
  - apply (proj1 (granted_tags_verbatim_or_duplicate_free
                    (allowed_inbounds_of twice_policy) dave VMess ["a"; "a"]%string
                    eq_refl)).
    intros held t Hheld. vm_compute in Hheld. discriminate.
  - destruct (proj2 (granted_tags_verbatim_or_duplicate_free
                       (allowed_inbounds_of twice_policy) dave_synced VMess
                       ["a"; "a"]%string eq_refl)
                ["a"; "a"]%string "a"%string) as (new_tags & Hnew & Hnd & _).
    + reflexivity.
    + apply list_elem_of_here.
    + apply list_elem_of_here.
    + exists new_tags. split; [exact Hnew | exact Hnd].
Defined.

Lemma bulk_status_stops_at_first_failure_witness :
  disable_all_active_users failing_store_env "admin"%string fleet
    = ({| nodes := nodes fleet;
          journal := [CrudDisableAllActiveUsers "admin"%string] |}, Raise)
  ∧ activate_all_disabled_users failing_builder_env "admin"%string fleet
    = ({| nodes := nodes fleet;
          journal := [CrudActivateAllDisabledUsers "admin"%string; IncludeDbUsers] |},
       Raise).
Proof.
  destruct (bulk_status_stops_at_first_failure failing_store_env "admin"%string fleet)
    as (Hstore & _).
  destruct (bulk_status_stops_at_first_failure failing_builder_env "admin"%string fleet)
    as (_ & _ & _ & Hbuilder).
  split.
  - apply Hstore. reflexivity.
  - apply Hbuilder; reflexivity.
Defined.

Lemma bulk_status_without_connected_nodes_witness :
  disable_all_active_users fleet_env "admin"%string idle_fleet
    = ({| nodes := nodes idle_fleet;
          journal := [CrudDisableAllActiveUsers "admin"%string; IncludeDbUsers;
                      CoreRestart "config"%string] |},
       Ok "Users successfully disabled"%string).
Proof.
  apply (proj1 (bulk_status_without_connected_nodes fleet_env "admin"%string
                  "config"%string idle_fleet eq_refl)); reflexivity.
Defined.

Lemma sync_report_adds_up_witness :
  (∃ report : Report,
     (sync_admin picky_env policy [alice; carol; bob] []).2 = Ok report
     ∧ total report = 3 ∧ unsuccessful report = 1)
  ∧ (∃ h' : list (Event string),
       (sync_admin stuck_env policy [alice; bob] []).1 = h' ++ [DbRollback]
       ∧ db_rollback_returns stuck_env h' = false).
Proof.
  split.
  - destruct (sync_report_adds_up picky_env policy [alice; carol; bob] [])
      as (segments & _ & _ & Hreport & Hreturns & _).
    destruct Hreturns as [report Hrun]; [intros h'; reflexivity|].
    destruct (Hreport report Hrun) as (_ & Htotal & _ & _ & Hcount).
    exists report. split; [exact Hrun|]. split; [exact Htotal|].
    rewrite Hcount. vm_compute. reflexivity.
  - destruct (sync_report_adds_up stuck_env policy [alice; bob] [])
      as (segments & _ & _ & _ & _ & Hraises).
    apply Hraises. vm_compute. reflexivity.
Defined.

Lemma sync_splits_over_users_witness :
  (∃ r1 r2 r : Report,
     (sync_admin picky_env policy [alice; carol] []).2 = Ok r1
     ∧ (sync_admin picky_env policy [bob]
          (sync_admin picky_env policy [alice; carol] []).1).2 = Ok r2
     ∧ (sync_admin picky_env policy [alice; carol; bob] []).2 = Ok r
     ∧ unsuccessful r = unsuccessful r1 + unsuccessful r2)
  ∧ sync_admin stuck_env policy [alice; carol; bob] []
    = ((sync_admin stuck_env policy [alice; carol] []).1, Raise).
Proof.
  split.
  - destruct (sync_splits_over_users picky_env policy [alice; carol] [bob] [])
      as (_ & _ & Hall).
    destruct Hall as (_ & r1 & r2 & r & H1 & H2 & H & _ & _ & Hsum);
      [intros h'; reflexivity|].
    exists r1, r2, r. split; [exact H1|]. split; [exact H2|].
    split; [exact H | exact Hsum].
  - destruct (sync_splits_over_users stuck_env policy [alice; carol] [bob] [])
      as (Hraise & _).
    destruct Hraise as [Htrace Hresult]; [vm_compute; reflexivity|].
    simpl app in Htrace, Hresult.
    destruct (sync_admin stuck_env policy [alice; carol; bob] []) as [h' r].
    simpl in Htrace, Hresult. by rewrite Htrace, Hresult.
Defined.
